(** * tfatool.sync: a shallow embedding of the FlashAir synchronisation engine

    The development follows [src/tfatool/sync.py].  Python objects that the
    code passes around dynamically are a small tagged union ([PyObj]);
    exceptions are an explicit result type; the outside world (local file
    system, the FlashAir device, the HTTP transport, the progress bar) is a
    record of oracles ([Env]) together with a mutable [World] that counts
    the calls made and records the observable effects in order. *)

From Stdlib Require Import ZArith String Ascii Bool.
From stdpp Require Import base gmap strings list.

Open Scope string_scope.
Open Scope list_scope.
Open Scope Z_scope.

(** ** Data model *)

(** [class Direction(str, Enum)] *)
Inductive Direction := up | down.

#[global] Instance Direction_eq_dec : EqDecision Direction.
Proof. solve_decision. Defined.

(** Modelled from the spec: the records of module [info] (SimpleFileInfo,
    FileInfo), which is not part of the sources.  The fields are the ones
    sync.py builds positionally in [list_local_files] and reads by name
    ([filename], [path], [size], [datetime]); the remote record's extra
    [attribute] field is never read by sync.py and is left out. *)
Record FileInfo := mkFileInfo {
  fi_directory : string;
  fi_filename : string;
  fi_path : string;
  fi_size : Z;
  fi_datetime : option Z;
}.

#[global] Instance FileInfo_eq_dec : EqDecision FileInfo.
Proof. solve_decision. Defined.

(** Modelled from the spec: the [Session] object of module [session]; the
    attributes are the ones sync.py reads from it. *)
Record Session := mkSession {
  url : string;
  local_dir : string;
  remote_dir : string;
  filters : list (FileInfo → bool);
}.

(** What [scandir] returns for one directory entry. *)
Record DirEntry := mkDirEntry {
  de_name : string;
  de_is_file : bool;
  de_st_size : Z;
  de_st_mtime : Z;
}.

(** The exceptions that can travel through sync.py. [KeyboardInterrupt] and
    [SystemExit] derive from [BaseException] only. *)
Inductive exn :=
  | AssertionError
  | AttributeError (attr : string)
  | TypeError (msg : string)
  | FileNotFoundError (file : string)
  | RequestException (msg : string)
  | ConnectionError (msg : string)
  | RuntimeError (msg : string)
  | KeyError (key : string)
  | StopIteration
  | KeyboardInterrupt
  | SystemExit.

#[global] Instance exn_eq_dec : EqDecision exn.
Proof. solve_decision. Defined.

(** [isinstance(e, Exception)] *)
Definition is_Exception (e : exn) : bool :=
  match e with
  | KeyboardInterrupt | SystemExit => false
  | _ => true
  end.

(** The values that reach the dynamically typed parameters of the upload
    path ([fileinfo], [session], [remote_files]). *)
Inductive PyObj :=
  | PyNone
  | PyStr (s : string)
  | PyDict (d : gmap string FileInfo)
  | PySession (s : Session)
  | PyFileInfo (f : FileInfo).

Inductive Result (A : Type) :=
  | Ok (a : A)
  | Raise (e : exn).
Arguments Ok {A} a.
Arguments Raise {A} e.

(** Attribute access, [obj.name]: an [AttributeError] when the object has no
    such attribute. *)
Definition attr_path (o : PyObj) : Result string :=
  match o with
  | PyFileInfo f => Ok (fi_path f)
  | _ => Raise (AttributeError "path")
  end.

Definition attr_remote_dir (o : PyObj) : Result string :=
  match o with
  | PySession s => Ok (remote_dir s)
  | _ => Raise (AttributeError "remote_dir")
  end.

(** ** Observable effects *)

Inductive Level := DEBUG | INFO | WARNING.

Inductive LogArg :=
  | AStr (s : string)
  | AInt (n : Z)
  | ADir (d : Direction)
  | AExn (e : exn).

Inductive Event :=
  | EvLog (lvl : Level) (template : string) (args : list LogArg)
  | EvYield (d : Direction) (arrivals : list FileInfo)
  | EvGet (u : string)                       (* requests.get(url, stream=True) *)
  | EvOpen (file : string)                   (* open(local_path, "wb") *)
  | EvWrite (file : string) (n : Z)          (* outfile.write(chunk) *)
  | EvRemove (file : string)                 (* os.remove(path) *)
  | EvPbarUpdate (n : Z)                     (* pbar.update(n) *)
  | EvUpload (file : string) (session : PyObj)   (* upload.upload_file *)
  | EvDelete (file : string) (session : PyObj).  (* upload.delete_file *)

(** What a streaming GET returns: the status, the chunks [iter_content]
    delivers, and the error (if any) that interrupts the stream after them. *)
Record Response := mkResponse {
  status_code : Z;
  iter_content : list (list Byte.byte);
  stream_failure : option exn;
}.

(** The external collaborators, as oracles indexed by the number of calls
    made so far. *)
Record Env := mkEnv {
  scandir : nat → string → list DirEntry;
  memory_changed : nat → bool;
  list_files : nat → list FileInfo;
  map_files_raw : nat → gmap string FileInfo;
  requests_get : nat → string → Response;
  urljoin : string → string → string;
  upload_file : nat → option exn;
  pbar_update : nat → option exn;
  default_session : Session;                 (* the [Session()] default *)
}.

Record World := mkWorld {
  fs : gmap string (list Byte.byte);         (* local files: path -> content *)
  log : list Event;
  scandir_calls : nat;
  memory_changed_calls : nat;
  list_files_calls : nat;
  map_files_raw_calls : nat;
  get_calls : nat;
  upload_calls : nat;
  pbar_calls : nat;
}.

Definition set_fs (f : gmap string (list Byte.byte)) (w : World) : World :=
  mkWorld f (log w) (scandir_calls w) (memory_changed_calls w)
    (list_files_calls w) (map_files_raw_calls w) (get_calls w)
    (upload_calls w) (pbar_calls w).

Definition emit (e : Event) (w : World) : World :=
  mkWorld (fs w) (log w ++ [e]) (scandir_calls w) (memory_changed_calls w)
    (list_files_calls w) (map_files_raw_calls w) (get_calls w)
    (upload_calls w) (pbar_calls w).

Definition tick_scandir (w : World) : World :=
  mkWorld (fs w) (log w) (S (scandir_calls w)) (memory_changed_calls w)
    (list_files_calls w) (map_files_raw_calls w) (get_calls w)
    (upload_calls w) (pbar_calls w).

Definition tick_memory_changed (w : World) : World :=
  mkWorld (fs w) (log w) (scandir_calls w) (S (memory_changed_calls w))
    (list_files_calls w) (map_files_raw_calls w) (get_calls w)
    (upload_calls w) (pbar_calls w).

Definition tick_list_files (w : World) : World :=
  mkWorld (fs w) (log w) (scandir_calls w) (memory_changed_calls w)
    (S (list_files_calls w)) (map_files_raw_calls w) (get_calls w)
    (upload_calls w) (pbar_calls w).

Definition tick_map_files_raw (w : World) : World :=
  mkWorld (fs w) (log w) (scandir_calls w) (memory_changed_calls w)
    (list_files_calls w) (S (map_files_raw_calls w)) (get_calls w)
    (upload_calls w) (pbar_calls w).

Definition tick_get (w : World) : World :=
  mkWorld (fs w) (log w) (scandir_calls w) (memory_changed_calls w)
    (list_files_calls w) (map_files_raw_calls w) (S (get_calls w))
    (upload_calls w) (pbar_calls w).

Definition tick_upload (w : World) : World :=
  mkWorld (fs w) (log w) (scandir_calls w) (memory_changed_calls w)
    (list_files_calls w) (map_files_raw_calls w) (get_calls w)
    (S (upload_calls w)) (pbar_calls w).

Definition tick_pbar (w : World) : World :=
  mkWorld (fs w) (log w) (scandir_calls w) (memory_changed_calls w)
    (list_files_calls w) (map_files_raw_calls w) (get_calls w)
    (upload_calls w) (S (pbar_calls w)).

Definition world0 : World := mkWorld ∅ [] 0 0 0 0 0 0 0.

(** ** The monad of sync.py: state passing with exceptions *)

Definition M (A : Type) : Type := World → Result A * World.

#[global] Instance M_ret : MRet M := λ A a w, (Ok a, w).
#[global] Instance M_bind : MBind M := λ A B f m w,
  match m w with
  | (Ok a, w') => f a w'
  | (Raise e, w') => (Raise e, w')
  end.

Definition raise {A} (e : exn) : M A := λ w, (Raise e, w).
Definition lift {A} (r : Result A) : M A := λ w, (r, w).
Definition effect (e : Event) : M unit := λ w, (Ok (), emit e w).
Definition get_world : M World := λ w, (Ok w, w).

(** [try: body  except BaseException as e: handler(e)] *)
Definition try_except {A} (body : M A) (handler : exn → M A) : M A := λ w,
  match body w with
  | (Ok a, w') => (Ok a, w')
  | (Raise e, w') => handler e w'
  end.

(** [try: body  except Exception as e: handler(e)]: exceptions that derive
    from [BaseException] only pass through. *)
Definition try_except_Exception {A} (body : M A) (handler : exn → M A) : M A :=
  try_except body (λ e, if is_Exception e then handler e else raise e).

(** [for x in xs: body(x)] *)
Fixpoint for_each {A} (xs : list A) (body : A → M unit) : M unit :=
  match xs with
  | [] => mret ()
  | x :: rest => _ ← body x; for_each rest body
  end.

Definition logger (lvl : Level) (template : string) (args : list LogArg) : M unit :=
  effect (EvLog lvl template args).

(** ** Python sets of file records

    A [set] of records is a list without repetitions up to the records'
    [__eq__]; the order of the list stands for the (unspecified) iteration
    order of the set. *)

Section PySet.
Context {A : Type} (eqb : A → A → bool).

Definition set_mem (x : A) (s : list A) : bool := existsb (eqb x) s.

(** [s.add(x)]: an equal element already present is kept. *)
Definition set_add (s : list A) (x : A) : list A :=
  if set_mem x s then s else s ++ [x].

(** [set(iterable)] *)
Definition py_set (l : list A) : list A := fold_left set_add l [].

(** [a - b] *)
Definition set_difference (a b : list A) : list A :=
  List.filter (λ x, negb (set_mem x b)) a.
End PySet.

(** Modelled from the spec: the equality of the SimpleFileInfo records of a
    local listing, defined in the missing module [info].  The record is a
    tuple and is compared field by field; for records of one directory this
    is the identity key of the spec, filename + size + timestamp (lemma
    [SimpleFileInfo_eqb_false]). *)
Definition SimpleFileInfo_eqb (a b : FileInfo) : bool := bool_decide (a = b).

(** Modelled from the spec: the equality of the remote listing's FileInfo
    records, defined in the missing module [info]; the spec states that the
    identity key of a remote record is its filename. *)
Definition FileInfo_eqb (a b : FileInfo) : bool :=
  String.eqb (fi_filename a) (fi_filename b).

(** The identity keys the spec names. *)
Definition local_key (f : FileInfo) : string * Z * option Z :=
  (fi_filename f, fi_size f, fi_datetime f).
Definition remote_key (f : FileInfo) : string := fi_filename f.

(** [len(x)] on a set *)
Definition len {A} (l : list A) : Z := Z.of_nat (length l).

(** Truth value of a set: non-empty. *)
Definition truthy {A} (l : list A) : bool :=
  match l with [] => false | _ => true end.

(** ** Listing the local directory *)

(** [str(Path(d, name))] for a directory [d] without trailing separator and
    a plain entry name. *)
Definition path_join (d name : string) : string := d +:+ "/" +:+ name.

(** [list_local_files]: the regular files of [session.local_dir] that pass
    every filter. *)
Definition list_local_files (env : Env) (session : Session) : M (list FileInfo) := λ w,
  let all_entries := scandir env (scandir_calls w) (local_dir session) in
  let file_entries := List.filter de_is_file all_entries in
  let infos := List.map (λ entry,
      mkFileInfo (local_dir session) (de_name entry)
        (path_join (local_dir session) (de_name entry))
        (de_st_size entry) (Some (de_st_mtime entry))) file_entries in
  (Ok (List.filter (λ info, forallb (λ filt, filt info) (filters session)) infos),
   tick_scandir w).

(** [command.list_files(session)], [command.memory_changed(session)] and
    [command.map_files_raw(session)]: external calls. *)
Definition command_list_files (env : Env) (session : Session) : M (list FileInfo) := λ w,
  (Ok (list_files env (list_files_calls w)), tick_list_files w).

Definition command_memory_changed (env : Env) (session : Session) : M bool := λ w,
  (Ok (memory_changed env (memory_changed_calls w)), tick_memory_changed w).

Definition command_map_files_raw (env : Env) (session : PyObj) : M (gmap string FileInfo) := λ w,
  (Ok (map_files_raw env (map_files_raw_calls w)), tick_map_files_raw w).

(** ** Generators

    A generator is a state machine: its state is the point where it is
    suspended together with its live local variables, and [next(g)] runs it
    from there to the next [yield].  A generator that raised is finished. *)

Inductive WatchState :=
  | Watch_start                                      (* not started yet *)
  | Watch_yielded (old_files new_files : list FileInfo) (* at the [yield] *)
  .

(** [watch_local_files] *)
Definition watch_local_files (env : Env) (session : Session) (st : WatchState)
  : M (list FileInfo * list FileInfo * WatchState) :=
  match st with
  | Watch_start =>
      l ← list_local_files env session;
      let new_files := py_set SimpleFileInfo_eqb l in
      let old_files := new_files in
      mret (set_difference SimpleFileInfo_eqb new_files old_files, new_files,
            Watch_yielded old_files new_files)
  | Watch_yielded old_files new_files =>
      let old_files := new_files in
      l ← list_local_files env session;
      let new_files := py_set SimpleFileInfo_eqb l in
      mret (set_difference SimpleFileInfo_eqb new_files old_files, new_files,
            Watch_yielded old_files new_files)
  end.

(** [watch_remote_files] *)
Definition watch_remote_files (env : Env) (session : Session) (st : WatchState)
  : M (list FileInfo * list FileInfo * WatchState) :=
  match st with
  | Watch_start =>
      _ ← command_memory_changed env session;   (* clear change status to start *)
      l ← command_list_files env session;
      let new_files := py_set FileInfo_eqb l in
      let old_files := new_files in
      mret (set_difference FileInfo_eqb new_files old_files, new_files,
            Watch_yielded old_files new_files)
  | Watch_yielded old_files new_files =>
      let old_files := new_files in
      changed ← command_memory_changed env session;
      new_files ← (if changed : bool
                   then l ← command_list_files env session;
                        mret (py_set FileInfo_eqb l)
                   else mret new_files);
      mret (set_difference FileInfo_eqb new_files old_files, new_files,
            Watch_yielded old_files new_files)
  end.

(** [n] successive [next] calls on a watcher: the pairs yielded, in order. *)
Fixpoint take_watch (next : WatchState → M (list FileInfo * list FileInfo * WatchState))
    (n : nat) (st : WatchState) : M (list (list FileInfo * list FileInfo) * WatchState) :=
  match n with
  | O => mret ([], st)
  | S k =>
      '(arrivals, snapshot, st') ← next st;
      '(rest, st'') ← take_watch next k st';
      mret ((arrivals, snapshot) :: rest, st'')
  end.

(** ** Transfer engine: download *)

(** [os.remove(path)] *)
Definition os_remove (file : string) : M unit := λ w,
  match fs w !! file with
  | Some _ => (Ok (), emit (EvRemove file) (set_fs (delete file (fs w)) w))
  | None => (Raise (FileNotFoundError file), w)
  end.

(** [open(path, "wb")]: creates the file, or truncates it. *)
Definition open_wb (file : string) : M unit := λ w,
  (Ok (), emit (EvOpen file) (set_fs (<[file := []]> (fs w)) w)).

(** [outfile.write(chunk)] *)
Definition file_write (file : string) (chunk : list Byte.byte) : M unit := λ w,
  (Ok (), emit (EvWrite file (len chunk))
            (set_fs (<[file := default [] (fs w !! file) ++ chunk]> (fs w)) w)).

(** [pbar.update(n)] of tqdm: an external call that may raise. *)
Definition pbar_update_call (env : Env) (n : Z) : M unit := λ w,
  let w' := tick_pbar (emit (EvPbarUpdate n) w) in
  match pbar_update env (pbar_calls w) with
  | None => (Ok (), w')
  | Some e => (Raise e, w')
  end.

(** [_update_pbar(pbar, val)] where [val = chunk_len / (5 * 10**5)];
    [int(val)] is the quotient of the division. *)
Definition _update_pbar (env : Env) (chunk_len : Z) : M unit :=
  let update_val := Z.max (chunk_len / (5 * 10 ^ 5)) 1 in
  try_except_Exception
    (pbar_update_call env update_val)
    (λ e, logger DEBUG "TQDM progress bar error: {}({})" [AExn e]).

(** [for chunk in response.iter_content(5*10**5): body(chunk)]: the chunks
    are delivered in order; a transport failure surfaces when the iterator
    is advanced past the last chunk it could deliver. *)
Definition for_each_chunk (response : Response) (body : list Byte.byte → M unit) : M unit :=
  _ ← for_each (iter_content response) body;
  match stream_failure response with
  | Some e => raise e
  | None => mret ()
  end.

(** [_write_file].  Creating and closing the tqdm bar and opening the file
    are taken to succeed; the wall-clock figures of the final log line are
    not modelled. *)
Definition _write_file (env : Env) (local_path : string) (fileinfo : FileInfo)
    (response : Response) : M unit :=
  _ ← (if status_code response =? 200
       then
         _ ← open_wb local_path;
         for_each_chunk response (λ chunk,
           _ ← _update_pbar env (len chunk);
           file_write local_path chunk)
       else raise (RequestException "Expected status code 200"));
  logger INFO "Wrote {} in {:0.2f} s ({:0.2f} MB, {:0.2f} MB/s)"
    [AStr (fi_filename fileinfo)].

(** [_write_file_safely] *)
Definition _write_file_safely (env : Env) (local_path : string) (fileinfo : FileInfo)
    (response : Response) : M unit :=
  try_except
    (_write_file env local_path fileinfo response)
    (λ e,
      _ ← logger WARNING "{} interrupted writing {} -- cleaning up partial file"
            [AExn e; AStr local_path];
      _ ← os_remove local_path;
      raise e).

(** [requests.get(url, stream=True)] *)
Definition requests_get_call (env : Env) (u : string) : M Response := λ w,
  (Ok (requests_get env (get_calls w) u), tick_get (emit (EvGet u) w)).

(** [_get_file] *)
Definition _get_file (env : Env) (fileinfo : FileInfo) (session : Session) : M Response :=
  let u := urljoin env (url session) (fi_path fileinfo) in
  _ ← logger INFO "Requesting file: {}" [AStr u];
  requests_get_call env u.

(** [_stream_to_file] *)
Definition _stream_to_file (env : Env) (local_name : string) (fileinfo : FileInfo)
    (session : Session) : M unit :=
  _ ← logger INFO "Copying remote file {} to {}" [AStr (fi_path fileinfo); AStr local_name];
  streaming_file ← _get_file env fileinfo session;
  _write_file_safely env local_name fileinfo streaming_file.

(** [_sync_remote_file] *)
Definition _sync_remote_file (env : Env) (remote_file_info : FileInfo)
    (session : Session) : M unit :=
  let local_name := path_join (local_dir session) (fi_filename remote_file_info) in
  let remote_size := fi_size remote_file_info in
  w ← get_world;
  match fs w !! local_name with
  | Some content =>                                      (* local.exists() *)
      let local_size := len content in
      if local_size =? remote_size
      then logger INFO "Skipping '{}': already exists locally" [AStr local_name]
      else
        _ ← logger WARNING "Removing {}: local size {} != remote size {}"
              [AStr local_name; AInt local_size; AInt remote_size];
        _ ← os_remove local_name;
        _stream_to_file env local_name remote_file_info session
  | None => _stream_to_file env local_name remote_file_info session
  end.

(** [down_by_files] *)
Definition down_by_files (env : Env) (to_sync : list FileInfo) (session : Session) : M unit :=
  for_each to_sync (λ fileinfo, _sync_remote_file env fileinfo session).

(** ** Transfer engine: upload *)

(** [upload.upload_file(local_path, session)] and
    [upload.delete_file(remote_file, session)]: external calls to the device.
    An upload may be interrupted. *)
Definition upload_upload_file (env : Env) (local_path : string) (session : PyObj) : M unit := λ w,
  let w' := tick_upload (emit (EvUpload local_path session) w) in
  match upload_file env (upload_calls w) with
  | None => (Ok (), w')
  | Some e => (Raise e, w')
  end.

Definition upload_delete_file (remote_file : string) (session : PyObj) : M unit :=
  effect (EvDelete remote_file session).

(** [needle in hay] on strings: substring test. *)
Fixpoint str_contains (needle hay : string) : bool :=
  String.prefix needle hay ||
  match hay with
  | EmptyString => false
  | String _ rest => str_contains needle rest
  end.

(** [name in obj] *)
Definition py_contains (name : string) (obj : PyObj) : Result bool :=
  match obj with
  | PyDict d => Ok (bool_decide (is_Some (d !! name)))
  | PyStr s => Ok (str_contains name s)
  | PyFileInfo f =>
      Ok (bool_decide (name = fi_directory f ∨ name = fi_filename f ∨ name = fi_path f))
  | PyNone => Raise (TypeError "argument of type 'NoneType' is not iterable")
  | PySession _ => Raise (TypeError "argument of type 'Session' is not iterable")
  end.

(** [obj[name]] with a string subscript *)
Definition py_getitem (obj : PyObj) (name : string) : Result FileInfo :=
  match obj with
  | PyDict d =>
      match d !! name with
      | Some f => Ok f
      | None => Raise (KeyError name)
      end
  | PyStr _ => Raise (TypeError "string indices must be integers")
  | PyFileInfo _ => Raise (TypeError "tuple indices must be integers or slices, not str")
  | PyNone => Raise (TypeError "'NoneType' object is not subscriptable")
  | PySession _ => Raise (TypeError "'Session' object is not subscriptable")
  end.

(** [_upload_file_safely] *)
Definition _upload_file_safely (env : Env) (fileinfo session : PyObj) : M unit :=
  try_except
    (p ← lift (attr_path fileinfo);
     upload_upload_file env p session)
    (λ e,
      p ← lift (attr_path fileinfo);
      _ ← logger WARNING "{} interrupted writing {} -- cleaning up partial remote file"
            [AExn e; AStr p];
      p ← lift (attr_path fileinfo);
      _ ← upload_delete_file p session;
      raise e).

(** [_stream_from_file(fileinfo, session)] *)
Definition _stream_from_file (env : Env) (fileinfo session : PyObj) : M unit :=
  p ← lift (attr_path fileinfo);
  d ← lift (attr_remote_dir session);
  _ ← logger INFO "Uploading local file {} to {}" [AStr p; AStr d];
  _upload_file_safely env fileinfo session.

(** [_sync_local_file(local_file_info, remote_files, session)] *)
Definition _sync_local_file (env : Env) (local_file_info : FileInfo)
    (remote_files session : PyObj) : M unit :=
  let local_name := fi_filename local_file_info in
  let local_size := fi_size local_file_info in
  present ← lift (py_contains local_name remote_files);
  if present : bool
  then
    remote_file_info ← lift (py_getitem remote_files local_name);
    let remote_size := fi_size remote_file_info in
    if local_size =? remote_size
    then logger INFO "Skipping '{}' already exists on SD card" [AStr local_name]
    else
      _ ← logger WARNING "Removing remote file {}: local size {} != remote size {}"
            [AStr local_name; AInt local_size; AInt remote_size];
      _ ← upload_delete_file (fi_path remote_file_info) session;
      _stream_from_file env (PyFileInfo local_file_info) session
  else
    _stream_from_file env session (PyFileInfo local_file_info).

(** [up_by_files(to_sync, remote_files, session)] *)
Definition up_by_files (env : Env) (to_sync : list FileInfo)
    (remote_files session : PyObj) : M unit :=
  remote_files ← (match remote_files with
                  | PyNone => d ← command_map_files_raw env session; mret (PyDict d)
                  | _ => mret remote_files
                  end);
  for_each to_sync (λ local_file, _sync_local_file env local_file remote_files session).

(** ** Notifications *)

Definition newline : string := String "010"%char "".

(** [_notify_sync] *)
Definition _notify_sync (direction : Direction) (files : list FileInfo) : M unit :=
  logger INFO "{:d} files to {:s}:\n{}"
    [AInt (len files); ADir direction;
     AStr (String.concat newline (List.map (λ f, "  " +:+ fi_filename f) files))].

(** [_notify_sync_ready] *)
Definition _notify_sync_ready (num_old_files : Z) (from_dir to_dir : string) : M unit :=
  logger INFO "Ready to sync new files from {} to {} ({:d} existing files ignored)"
    [AStr from_dir; AStr to_dir; AInt num_old_files].

(** ** Orchestrators *)

Definition Step : Type := Direction * list FileInfo.

(** *** [up_by_arrival] *)

Inductive UpState :=
  | Up_start
  | Up_yielded (new_arrivals file_set : list FileInfo) (local_monitor : WatchState).

(** The head of the [for] loop: pull from the watcher, then [yield]. *)
Definition up_by_arrival_loop (env : Env) (session : Session)
    (local_monitor : WatchState) : M (Step * UpState) :=
  '(new_arrivals, file_set, local_monitor) ← watch_local_files env session local_monitor;
  mret ((up, new_arrivals), Up_yielded new_arrivals file_set local_monitor).

Definition up_by_arrival (env : Env) (session : Session) (st : UpState)
  : M (Step * UpState) :=
  match st with
  | Up_start =>
      '(_, file_set, local_monitor) ← watch_local_files env session Watch_start;
      _ ← _notify_sync_ready (len file_set) (local_dir session) (remote_dir session);
      up_by_arrival_loop env session local_monitor
  | Up_yielded new_arrivals file_set local_monitor =>
      _ ← (if truthy new_arrivals
           then
             _ ← _notify_sync up new_arrivals;
             _ ← up_by_files env new_arrivals (PyStr (remote_dir session))
                   (PySession (default_session env));
             _notify_sync_ready (len file_set) (local_dir session) (remote_dir session)
           else mret ());
      up_by_arrival_loop env session local_monitor
  end.

(** *** [down_by_arrival] *)

Inductive DownState :=
  | Down_start
  | Down_yielded (remote_monitor : WatchState).

Definition down_by_arrival_loop (env : Env) (session : Session)
    (remote_monitor : WatchState) : M (Step * DownState) :=
  '(new_arrivals, file_set, remote_monitor) ← watch_remote_files env session remote_monitor;
  _ ← (if truthy new_arrivals
       then
         _ ← _notify_sync down new_arrivals;
         _ ← down_by_files env new_arrivals session;
         _notify_sync_ready (len file_set) (remote_dir session) (local_dir session)
       else mret ());
  mret ((down, new_arrivals), Down_yielded remote_monitor).

Definition down_by_arrival (env : Env) (session : Session) (st : DownState)
  : M (Step * DownState) :=
  match st with
  | Down_start =>
      '(_, file_set, remote_monitor) ← watch_remote_files env session Watch_start;
      _ ← _notify_sync_ready (len file_set) (remote_dir session) (local_dir session);
      down_by_arrival_loop env session remote_monitor
  | Down_yielded remote_monitor =>
      down_by_arrival_loop env session remote_monitor
  end.

(** *** [up_down_by_arrival] *)

Inductive UpDownState :=
  | UpDown_start
  (* suspended at [yield Direction.up, local_arrivals] *)
  | UpDown_yielded_up (local_arrivals local_set new_remote remote_set : list FileInfo)
      (processed : gset string) (local_monitor remote_monitor : WatchState)
  (* suspended at the first [yield Direction.down, remote_arrivals] *)
  | UpDown_yielded_down (remote_arrivals remote_set : list FileInfo)
      (processed : gset string) (local_monitor remote_monitor : WatchState)
  (* suspended at the [yield Direction.down, remote_arrivals] inside
     [if remote_arrivals:] *)
  | UpDown_yielded_down_again (remote_arrivals remote_set : list FileInfo)
      (processed : gset string) (local_monitor remote_monitor : WatchState).

(** [{f for f in new_files if f.filename not in processed}] *)
Definition not_processed (eqb : FileInfo → FileInfo → bool) (processed : gset string)
    (new_files : list FileInfo) : list FileInfo :=
  py_set eqb (List.filter (λ f, bool_decide (fi_filename f ∉ processed)) new_files).

(** [processed.update(f.filename for f in arrivals)] *)
Definition processed_update (processed : gset string) (arrivals : list FileInfo) : gset string :=
  processed ∪ list_to_set (List.map fi_filename arrivals).

(** The head of [for new_local, new_remote in zip(local_monitor,
    remote_monitor)], up to the first [yield] of the body. *)
Definition up_down_by_arrival_loop (env : Env) (session : Session)
    (processed : gset string) (local_monitor remote_monitor : WatchState)
  : M (Step * UpDownState) :=
  '(new_local, local_set, local_monitor) ← watch_local_files env session local_monitor;
  '(new_remote, remote_set, remote_monitor) ← watch_remote_files env session remote_monitor;
  let local_arrivals := not_processed SimpleFileInfo_eqb processed new_local in
  mret ((up, local_arrivals),
        UpDown_yielded_up local_arrivals local_set new_remote remote_set
          processed local_monitor remote_monitor).

Definition up_down_by_arrival (env : Env) (session : Session) (st : UpDownState)
  : M (Step * UpDownState) :=
  match st with
  | UpDown_start =>
      '(_, lfile_set, local_monitor) ← watch_local_files env session Watch_start;
      '(_, rfile_set, remote_monitor) ← watch_remote_files env session Watch_start;
      _ ← _notify_sync_ready (len lfile_set) (local_dir session) (remote_dir session);
      _ ← _notify_sync_ready (len rfile_set) (remote_dir session) (local_dir session);
      up_down_by_arrival_loop env session ∅ local_monitor remote_monitor
  | UpDown_yielded_up local_arrivals local_set new_remote remote_set
      processed local_monitor remote_monitor =>
      processed ← (if truthy local_arrivals
                   then
                     let processed := processed_update processed local_arrivals in
                     _ ← _notify_sync up local_arrivals;
                     _ ← up_by_files env local_arrivals (PyStr (remote_dir session))
                           (PySession (default_session env));
                     _ ← _notify_sync_ready (len local_set) (local_dir session)
                           (remote_dir session);
                     mret processed
                   else mret processed);
      let remote_arrivals := not_processed FileInfo_eqb processed new_remote in
      mret ((down, remote_arrivals),
            UpDown_yielded_down remote_arrivals remote_set processed
              local_monitor remote_monitor)
  | UpDown_yielded_down remote_arrivals remote_set processed
      local_monitor remote_monitor =>
      if truthy remote_arrivals
      then
        let processed := processed_update processed remote_arrivals in
        _ ← _notify_sync down remote_arrivals;
        mret ((down, remote_arrivals),
              UpDown_yielded_down_again remote_arrivals remote_set processed
                local_monitor remote_monitor)
      else up_down_by_arrival_loop env session processed local_monitor remote_monitor
  | UpDown_yielded_down_again remote_arrivals remote_set processed
      local_monitor remote_monitor =>
      _ ← down_by_files env remote_arrivals session;
      _ ← _notify_sync_ready (len remote_set) (remote_dir session) (local_dir session);
      up_down_by_arrival_loop env session processed local_monitor remote_monitor
  end.

(** [n] successive [next] calls on an orchestrator.  Each step handed to the
    caller is recorded in the log at the moment it is yielded; an exception
    ends the run. *)
Fixpoint drive {St : Type} (next : St → M (Step * St)) (n : nat) (st : St) : M St :=
  match n with
  | O => mret st
  | S k =>
      '((d, arrivals), st') ← next st;
      _ ← effect (EvYield d arrivals);
      drive next k st'
  end.

(** ** Monitor *)

Inductive Method := m_up_down_by_arrival | m_up_by_arrival | m_down_by_arrival.

(** [running] is the state of the [threading.Event]; [thread] the worker
    handle, with the orchestrator it was started on. *)
Record Monitor := mkMonitor {
  running : bool;
  thread : option Method;
}.



(** [Monitor.stop] *)
Definition stop (self : Monitor) : Result unit * Monitor :=
  (Ok (), mkMonitor false (thread self)).



(** ** Predicates used in the statements *)

(** A record of the directory [session.local_dir], as [list_local_files]
    builds it. *)
Definition in_local_dir (session : Session) (f : FileInfo) : Prop :=
  fi_directory f = local_dir session ∧
  fi_path f = path_join (local_dir session) (fi_filename f) ∧
  is_Some (fi_datetime f).

(** What the two watchers have in common: every [next] succeeds, and yields
    the new snapshot together with its difference from the snapshot yielded
    before (from itself on the first call). *)
Record watcher_spec (eqb : FileInfo → FileInfo → bool) (P : list FileInfo → Prop)
    (next : WatchState → M (list FileInfo * list FileInfo * WatchState)) : Prop := {
  ws_start : ∀ w, ∃ s w',
    P s ∧ next Watch_start w = (Ok (set_difference eqb s s, s, Watch_yielded s s), w');
  ws_step : ∀ o s w, ∃ s' w',
    P s' ∧ next (Watch_yielded o s) w
           = (Ok (set_difference eqb s' s, s', Watch_yielded s s'), w');
}.

(** The snapshot a suspended watcher compares the next listing with. *)
Definition last_snapshot (st : WatchState) : option (list FileInfo) :=
  match st with
  | Watch_start => None
  | Watch_yielded _ new_files => Some new_files
  end.

Fixpoint chained (eqb : FileInfo → FileInfo → bool) (P : list FileInfo → Prop)
    (prev : option (list FileInfo)) (ys : list (list FileInfo * list FileInfo)) : Prop :=
  match ys with
  | [] => True
  | (a, s) :: rest =>
      P s ∧ a = set_difference eqb s (default s prev) ∧ chained eqb P (Some s) rest
  end.

(** The progress bar only raises what [except Exception] catches. *)
Definition pbar_raises_Exception_only (env : Env) : Prop :=
  ∀ (k : nat) e, pbar_update env k = Some e → is_Exception e = true.


(** *** Shape of the log of an orchestrator run

    The records [_notify_sync] and [_notify_sync_ready] write around a
    transfer, and the events of one run of a transfer. *)

Definition notify_event (direction : Direction) (files : list FileInfo) : Event :=
  EvLog INFO "{:d} files to {:s}:\n{}"
    [AInt (len files); ADir direction;
     AStr (String.concat newline (List.map (λ f, "  " +:+ fi_filename f) files))].

Definition ready_event (num_old_files : Z) (from_dir to_dir : string) : Event :=
  EvLog INFO "Ready to sync new files from {} to {} ({:d} existing files ignored)"
    [AStr from_dir; AStr to_dir; AInt num_old_files].

(** [runs m r evs]: some run of [m] ends with result [r] and appends exactly
    the events [evs] to the log. *)
Definition runs (m : M unit) (r : Result unit) (evs : list Event) : Prop :=
  ∃ w1 w2, m w1 = (r, w2) ∧ log w2 = log w1 ++ evs.

(** [up_steps env session a evs]: [evs] is what can be observed of
    [up_by_arrival] after it has yielded the step [(up, a)]. *)
Inductive up_steps (env : Env) (session : Session) : list FileInfo → list Event → Prop :=
  | up_steps_stop a :
      up_steps env session a []
  | up_steps_idle a' evs :
      up_steps env session a' evs →
      up_steps env session [] (EvYield up a' :: evs)
  | up_steps_transfer a tevs n a' evs :
      a ≠ [] →
      runs (up_by_files env a (PyStr (remote_dir session))
              (PySession (default_session env))) (Ok ()) tevs →
      up_steps env session a' evs →
      up_steps env session a
        (notify_event up a :: tevs ++
         ready_event n (local_dir session) (remote_dir session) :: EvYield up a' :: evs)
  | up_steps_raise a tevs e :
      a ≠ [] →
      runs (up_by_files env a (PyStr (remote_dir session))
              (PySession (default_session env))) (Raise e) tevs →
      up_steps env session a (notify_event up a :: tevs).

(** [down_steps env session evs]: [evs] is what can be observed of
    [down_by_arrival] from the head of its loop. *)
Inductive down_steps (env : Env) (session : Session) : list Event → Prop :=
  | down_steps_stop :
      down_steps env session []
  | down_steps_idle evs :
      down_steps env session evs →
      down_steps env session (EvYield down [] :: evs)
  | down_steps_transfer a tevs n evs :
      a ≠ [] →
      runs (down_by_files env a session) (Ok ()) tevs →
      down_steps env session evs →
      down_steps env session
        (notify_event down a :: tevs ++
         ready_event n (remote_dir session) (local_dir session) :: EvYield down a :: evs)
  | down_steps_raise a tevs e :
      a ≠ [] →
      runs (down_by_files env a session) (Raise e) tevs →
      down_steps env session (notify_event down a :: tevs).

(** Where [up_down_by_arrival] is suspended. *)
Inductive Pending :=
  | After_up (local_arrivals : list FileInfo)
  | After_down (remote_arrivals : list FileInfo)
  | After_down_again (remote_arrivals : list FileInfo).

(** [up_down_steps env session p evs]: [evs] is what can be observed of
    [up_down_by_arrival] after the yield recorded in [p]. *)
Inductive up_down_steps (env : Env) (session : Session) : Pending → list Event → Prop :=
  | up_down_steps_stop p :
      up_down_steps env session p []
  | up_down_steps_up_idle ra evs :
      up_down_steps env session (After_down ra) evs →
      up_down_steps env session (After_up []) (EvYield down ra :: evs)
  | up_down_steps_up_transfer la tevs n ra evs :
      la ≠ [] →
      runs (up_by_files env la (PyStr (remote_dir session))
              (PySession (default_session env))) (Ok ()) tevs →
      up_down_steps env session (After_down ra) evs →
      up_down_steps env session (After_up la)
        (notify_event up la :: tevs ++
         ready_event n (local_dir session) (remote_dir session) :: EvYield down ra :: evs)
  | up_down_steps_up_raise la tevs e :
      la ≠ [] →
      runs (up_by_files env la (PyStr (remote_dir session))
              (PySession (default_session env))) (Raise e) tevs →
      up_down_steps env session (After_up la) (notify_event up la :: tevs)
  | up_down_steps_down_idle la evs :
      up_down_steps env session (After_up la) evs →
      up_down_steps env session (After_down []) (EvYield up la :: evs)
  | up_down_steps_down_announce ra evs :
      ra ≠ [] →
      up_down_steps env session (After_down_again ra) evs →
      up_down_steps env session (After_down ra)
        (notify_event down ra :: EvYield down ra :: evs)
  | up_down_steps_down_transfer ra tevs n la evs :
      runs (down_by_files env ra session) (Ok ()) tevs →
      up_down_steps env session (After_up la) evs →
      up_down_steps env session (After_down_again ra)
        (tevs ++ ready_event n (remote_dir session) (local_dir session) ::
         EvYield up la :: evs)
  | up_down_steps_down_raise ra tevs e :
      runs (down_by_files env ra session) (Raise e) tevs →
      up_down_steps env session (After_down_again ra) tevs.

Definition pending_of (st : UpDownState) : option Pending :=
  match st with
  | UpDown_start => None
  | UpDown_yielded_up local_arrivals _ _ _ _ _ _ => Some (After_up local_arrivals)
  | UpDown_yielded_down remote_arrivals _ _ _ _ => Some (After_down remote_arrivals)
  | UpDown_yielded_down_again remote_arrivals _ _ _ _ =>
      Some (After_down_again remote_arrivals)
  end.

(** Every event a computation makes is appended to the log. *)
Definition log_grows {A} (m : M A) : Prop :=
  ∀ w r w', m w = (r, w') → ∃ evs, log w' = log w ++ evs.

(** ** Concrete scenarios *)

Definition example_session : Session :=
  mkSession "http://flashair" "/home/pics" "/DCIM/100__TSB" [].

(** Nothing changes anywhere, every transport call succeeds. *)
Definition quiet_env : Env :=
  mkEnv (λ _ _, []) (λ _, false) (λ _, []) (λ _, ∅)
    (λ _ _, mkResponse 200 [] None) (λ a b, a +:+ b)
    (λ _, None) (λ _, None) example_session.



(** The transport answers every request with 404. *)
Definition not_found_env : Env :=
  mkEnv (λ _ _, []) (λ _, false) (λ _, []) (λ _, ∅)
    (λ _ _, mkResponse 404 [] None) (λ a b, a +:+ b)
    (λ _, None) (λ _, None) example_session.

(** Every upload is interrupted. *)
Definition interrupted_upload_env : Env :=
  mkEnv (λ _ _, []) (λ _, false) (λ _, []) (λ _, ∅)
    (λ _ _, mkResponse 200 [] None) (λ a b, a +:+ b)
    (λ _, Some (ConnectionError "reset")) (λ _, None) example_session.

Definition local_A : FileInfo :=
  mkFileInfo "/home/pics" "A.JPG" "/home/pics/A.JPG" 100 (Some 5).
Definition local_C : FileInfo :=
  mkFileInfo "/home/pics" "C.JPG" "/home/pics/C.JPG" 80 (Some 7).
Definition remote_C : FileInfo :=
  mkFileInfo "/DCIM/100__TSB" "C.JPG" "/DCIM/100__TSB/C.JPG" 60 None.
Definition remote_X : FileInfo :=
  mkFileInfo "/DCIM/100__TSB" "X.JPG" "/DCIM/100__TSB/X.JPG" 10 None.

(** The device reports a change on every tick; X.JPG is on the card from
    the second listing on.  The local directory stays empty. *)
Definition remote_arrival_env : Env :=
  mkEnv (λ _ _, []) (λ _, true)
    (λ k, match k with O => [] | _ => [remote_X] end) (λ _, ∅)
    (λ _ _, mkResponse 200 [[Byte.x01; Byte.x02]] None) (λ a b, a +:+ b)
    (λ _, None) (λ _, None) example_session.

(** A.JPG appears in the local directory after the first listing. *)
Definition local_arrival_env : Env :=
  mkEnv (λ k _, match k with O => [] | _ => [mkDirEntry "A.JPG" true 100 5] end)
    (λ _, false) (λ _, []) (λ _, ∅)
    (λ _ _, mkResponse 200 [] None) (λ a b, a +:+ b)
    (λ _, None) (λ _, None) example_session.

From Stdlib Require Sorted.

(** ** The one-shot entry points of sync.py *)

(** [l[-count:]]: with a positive [count] the last [count] elements (the
    whole list if it is shorter); with [count = 0] the slice starts at index
    0 and is the whole list; with a negative [count] it starts at index
    [-count]. *)
Definition py_slice_last {A} (count : Z) (l : list A) : list A :=
  if 0 <? count
  then drop (Z.to_nat (Z.max (len l - count) 0)) l
  else drop (Z.to_nat (- count)) l.

(** [sorted(l, key=key)]: the stable sort; [ltb] is [<] on the keys. *)
Fixpoint py_sorted_insert {A K} (ltb : K → K → bool) (key : A → K)
    (x : A) (l : list A) : list A :=
  match l with
  | [] => [x]
  | y :: rest =>
      if ltb (key y) (key x)
      then y :: py_sorted_insert ltb key x rest
      else x :: y :: rest
  end.

Definition py_sorted {A K} (ltb : K → K → bool) (key : A → K) (l : list A) : list A :=
  foldr (py_sorted_insert ltb key) [] l.

(** [down_by_all] *)
Definition down_by_all (env : Env) (session : Session) : M unit :=
  files ← command_list_files env session;
  down_by_files env files session.

(** [down_by_name(session, count)] *)
Definition down_by_name (env : Env) (session : Session) (count : Z) : M unit :=
  files ← command_list_files env session;
  let greatest := py_sorted String.ltb fi_filename files in
  let to_sync := py_slice_last count greatest in
  _ ← _notify_sync down to_sync;
  down_by_files env (rev to_sync) session.

(** [up_by_all(session, count)] *)
Definition up_by_all (env : Env) (session : Session) (count : option Z) : M unit :=
  files ← list_local_files env session;
  let files := match count with
               | Some count => py_slice_last count files
               | None => files
               end in
  up_by_files env files PyNone (PySession session).

(** The steps [n] successive [next] calls hand to the caller, up to the
    first call that raises. *)
Fixpoint yields {St : Type} (next : St → M (Step * St)) (n : nat) (st : St)
    (w : World) : list Step :=
  match n with
  | O => []
  | S k =>
      match next st w with
      | (Ok ((d, arrivals), st'), w') =>
          (d, arrivals) :: yields next k st' (emit (EvYield d arrivals) w')
      | (Raise _, _) => []
      end
  end.

(** The filenames yielded in one direction. *)
Definition yielded_names (direction : Direction) (steps : list Step) : list string :=
  concat (List.map (λ step : Step,
                      if decide (step.1 = direction)
                      then List.map fi_filename step.2 else []) steps).

(** A call that reaches the device or the transport. *)
Definition device_event (ev : Event) : bool :=
  match ev with
  | EvGet _ | EvUpload _ _ | EvDelete _ _ => true
  | _ => false
  end.

(** [keeps p m]: no run of [m] changes the component [p] of the world. *)
Definition keeps {A X} (p : World → X) (m : M A) : Prop :=
  ∀ w r w', m w = (r, w') → p w' = p w.

(** ** More scenarios *)

(** The transport delivers one chunk and then loses the connection. *)
Definition broken_stream_env : Env :=
  mkEnv (λ _ _, []) (λ _, false) (λ _, [remote_X]) (λ _, ∅)
    (λ _ _, mkResponse 200 [[Byte.x01]] (Some (ConnectionError "reset")))
    (λ a b, a +:+ b)
    (λ _, None) (λ _, None) example_session.

(** The card lists X.JPG (10 bytes) and C.JPG (60 bytes); the local
    directory holds A.JPG, a subdirectory and C.JPG (80 bytes). *)
Definition two_files_env : Env :=
  mkEnv (λ _ _, [mkDirEntry "A.JPG" true 100 5; mkDirEntry "sub" false 0 1;
                 mkDirEntry "C.JPG" true 80 7])
    (λ _, false) (λ _, [remote_X; remote_C]) (λ _, {[ "C.JPG" := remote_C ]})
    (λ _ _, mkResponse 200 [[Byte.x01; Byte.x02]] None) (λ a b, a +:+ b)
    (λ _, None) (λ _, None) example_session.

(** A local directory that already holds both files at their remote size. *)
Definition synced_fs : gmap string (list Byte.byte) :=
  {[ "/home/pics/X.JPG" := replicate 10 Byte.x00;
     "/home/pics/C.JPG" := replicate 60 Byte.x00 ]}.

(** The set of filenames of a set of records. *)
Definition names_of (files : list FileInfo) : gset string :=
  list_to_set (List.map fi_filename files).

(** What [up_down_by_arrival] maintains between two yields, where [U] and
    [D] are the filenames it has yielded so far for upload and for download:
    every name yielded is in [processed], except those of the step that was
    just yielded for the first time, which are not. *)
Definition processed_inv (st : UpDownState) (U D : gset string) : Prop :=
  match st with
  | UpDown_start => U = ∅ ∧ D = ∅
  | UpDown_yielded_up local_arrivals _ _ _ processed _ _ =>
      U ⊆ processed ∪ names_of local_arrivals ∧ D ⊆ processed ∧ U ## D ∧
      names_of local_arrivals ## processed
  | UpDown_yielded_down remote_arrivals _ processed _ _ =>
      U ⊆ processed ∧ D ⊆ processed ∪ names_of remote_arrivals ∧ U ## D ∧
      names_of remote_arrivals ## processed
  | UpDown_yielded_down_again _ _ processed _ _ =>
      U ⊆ processed ∧ D ⊆ processed ∧ U ## D
  end.

(** The names a step adds to the names yielded in [direction]. *)
Definition step_names (direction : Direction) (step : Step) : gset string :=
  if decide (step.1 = direction) then names_of step.2 else ∅.

(** X.JPG arrives on the card on the first tick; on the second tick the
    local directory shows the downloaded X.JPG and a new A.JPG. *)
Definition round_trip_env : Env :=
  mkEnv (λ k _, match k with
                | O | 1%nat => []
                | _ => [mkDirEntry "X.JPG" true 2 9; mkDirEntry "A.JPG" true 100 5]
                end)
    (λ _, true)
    (λ k, match k with O => [] | _ => [remote_X] end) (λ _, ∅)
    (λ _ _, mkResponse 200 [[Byte.x01; Byte.x02]] None) (λ a b, a +:+ b)
    (λ _, None) (λ _, None) example_session.

(** [log_adds P m]: every event a run of [m] appends to the log satisfies
    [P]. *)
Definition log_adds {A} (P : Event → Prop) (m : M A) : Prop :=
  ∀ w r w', m w = (r, w') → ∃ evs, log w' = log w ++ evs ∧ Forall P evs.

(** The calls that change the card, and the effects on the local side. *)
Definition changes_card (ev : Event) : bool :=
  match ev with
  | EvUpload _ _ | EvDelete _ _ => true
  | _ => false
  end.

Definition local_effect (ev : Event) : bool :=
  match ev with
  | EvGet _ | EvOpen _ | EvWrite _ _ | EvRemove _ => true
  | _ => false
  end.

(** The local record of a downloaded X.JPG. *)
Definition local_X_copy : FileInfo :=
  mkFileInfo "/home/pics" "X.JPG" "/home/pics/X.JPG" 2 (Some 9).

(** [f] does not come after [g] in the order of filenames. *)
Definition name_le (f g : FileInfo) : Prop :=
  String.ltb (fi_filename g) (fi_filename f) = false.

(** * tfatool.config: the values of the device's configuration parameters

    Strings are taken to be ASCII, one character per code point.  A value is
    given at the type its processor is annotated with, a member of one of
    the three [ModeValue] enumerations for both mode processors; [timeout],
    annotated [float], is modelled on whole numbers of seconds.  [mode in E]
    holds for the members of the enumeration [E] itself, as [Enum] decides
    it up to Python 3.11. *)

Module config.

(** [class Param(str, Enum)] with the wire name of each member. *)
Module Param.
Inductive t :=
  | wifi_timeout | app_info | wifi_mode | wifi_key | wifi_ssid
  | passthrough_key | passthrough_ssid | bootscreen_path
  | mastercode | clear_mastercode | timezone | drive_mode.

Definition value (p : t) : string :=
  match p with
  | wifi_timeout => "APPAUTOTIME"
  | app_info => "APPINFO"
  | wifi_mode => "APPMODE"
  | wifi_key => "APPNETWORKKEY"
  | wifi_ssid => "APPSSID"
  | passthrough_key => "BRGNETWORKKEY"
  | passthrough_ssid => "BRGSSID"
  | bootscreen_path => "CIPATH"
  | mastercode => "MASTERCODE"
  | clear_mastercode => "CLEARCODE"
  | timezone => "TIMEZONE"
  | drive_mode => "WEBDAV"
  end.
End Param.

#[global] Instance Param_eq_dec : EqDecision Param.t.
Proof. solve_decision. Defined.

(** The three [ModeValue] enumerations. *)
Module WifiMode.
Inductive t := access_point | station | passthrough.
Definition value (m : t) : Z :=
  match m with access_point => 0 | station => 2 | passthrough => 3 end.
End WifiMode.

Module WifiModeOnBoot.
Inductive t := access_point | station | passthrough.
Definition value (m : t) : Z :=
  match m with access_point => 4 | station => 5 | passthrough => 6 end.
End WifiModeOnBoot.

Module DriveMode.
Inductive t := disable | enable | upload.
Definition value (m : t) : Z :=
  match m with disable => 0 | enable => 1 | upload => 2 end.
End DriveMode.

Inductive ModeValue :=
  | OfWifiMode (m : WifiMode.t)
  | OfWifiModeOnBoot (m : WifiModeOnBoot.t)
  | OfDriveMode (m : DriveMode.t).

(** [int(mode)] *)
Definition int_of_mode (mode : ModeValue) : Z :=
  match mode with
  | OfWifiMode m => WifiMode.value m
  | OfWifiModeOnBoot m => WifiModeOnBoot.value m
  | OfDriveMode m => DriveMode.value m
  end.

(** [assert cond] *)
Definition assert (cond : bool) : Result unit :=
  if cond then Ok () else Raise AssertionError.

Definition and_then {A B} (r : Result A) (f : A → Result B) : Result B :=
  match r with
  | Ok a => f a
  | Raise e => Raise e
  end.

(** [timeout(seconds)], for a whole number of seconds *)
Definition timeout (seconds : Z) : Result Z :=
  let param_value := seconds * 1000 in
  and_then (assert ((60000 <=? param_value) && (param_value <=? 4294967294)))
    (λ _, Ok param_value).

(** [info(info)] *)
Definition info (info : string) : Result string :=
  and_then (assert ((1 <=? len (list_ascii_of_string info))
                    && (len (list_ascii_of_string info) <=? 16)))
    (λ _, Ok info).

(** [mode in WifiMode], [mode in WifiModeOnBoot], [mode in DriveMode]: the
    member belongs to that enumeration. *)
Definition in_WifiMode (mode : ModeValue) : bool :=
  match mode with OfWifiMode _ => true | _ => false end.
Definition in_WifiModeOnBoot (mode : ModeValue) : bool :=
  match mode with OfWifiModeOnBoot _ => true | _ => false end.
Definition in_DriveMode (mode : ModeValue) : bool :=
  match mode with OfDriveMode _ => true | _ => false end.

(** [wifi(mode)] *)
Definition wifi (mode : ModeValue) : Result Z :=
  and_then (assert (in_WifiMode mode || in_WifiModeOnBoot mode))
    (λ _, Ok (int_of_mode mode)).

(** [key(network_key)] *)
Definition key (network_key : string) : Result string :=
  and_then (assert ((0 <=? len (list_ascii_of_string network_key))
                    && (len (list_ascii_of_string network_key) <=? 63)))
    (λ _, Ok network_key).

(** [ssid(network_ssid)] *)
Definition ssid (network_ssid : string) : Result string :=
  and_then (assert ((1 <=? len (list_ascii_of_string network_ssid))
                    && (len (list_ascii_of_string network_ssid) <=? 32)))
    (λ _, Ok network_ssid).

Definition passthrough_key := key.
Definition passthrough_ssid := ssid.

(** [c.upper()] on one ASCII character *)
Definition upper_ascii (c : ascii) : ascii :=
  let n := N_of_ascii c in
  if ((97 <=? n) && (n <=? 122))%N then ascii_of_N (n - 32) else c.

(** [code.upper()] *)
Fixpoint upper (s : string) : string :=
  match s with
  | EmptyString => EmptyString
  | String c rest => String (upper_ascii c) (upper rest)
  end.

(** [c in valid_chars] for a character [c] *)
Definition char_in (c : ascii) (valid_chars : string) : bool :=
  existsb (Ascii.eqb c) (list_ascii_of_string valid_chars).

(** [mastercode(code)] *)
Definition mastercode (code : string) : Result string :=
  and_then (assert (len (list_ascii_of_string code) =? 12)) (λ _,
  let code := upper code in
  let valid_chars := "0123456789ABCDEF" in
  and_then (assert (forallb (λ c, char_in c valid_chars) (list_ascii_of_string code)))
    (λ _, Ok code)).

(** [bootscreen_path(path)] *)
Definition bootscreen_path (path : string) : Result string := Ok path.

(** [timezone(hours_offset)] *)
Definition timezone (hours_offset : Z) : Result Z :=
  let param_value := hours_offset * 4 in
  and_then (assert ((-48 <=? param_value) && (param_value <=? 36)))
    (λ _, Ok param_value).

(** [drive(mode)] *)
Definition drive (mode : ModeValue) : Result Z :=
  and_then (assert (in_DriveMode mode)) (λ _, Ok (int_of_mode mode)).

(** A processed value: a number or a string. *)
Inductive Value :=
  | VInt (n : Z)
  | VStr (s : string).

(** [clear_mastercode(_)] *)
Definition clear_mastercode (v : Value) : Result Z := Ok 1.

(** An item of a parameter map: a parameter with a value of the type its
    processor takes. *)
Inductive Setting :=
  | Set_wifi_timeout (seconds : Z)
  | Set_app_info (s : string)
  | Set_wifi_mode (mode : ModeValue)
  | Set_wifi_key (s : string)
  | Set_wifi_ssid (s : string)
  | Set_passthrough_key (s : string)
  | Set_passthrough_ssid (s : string)
  | Set_bootscreen_path (s : string)
  | Set_mastercode (s : string)
  | Set_clear_mastercode (v : Value)
  | Set_timezone (hours_offset : Z)
  | Set_drive_mode (mode : ModeValue).

Definition param_of (item : Setting) : Param.t :=
  match item with
  | Set_wifi_timeout _ => Param.wifi_timeout
  | Set_app_info _ => Param.app_info
  | Set_wifi_mode _ => Param.wifi_mode
  | Set_wifi_key _ => Param.wifi_key
  | Set_wifi_ssid _ => Param.wifi_ssid
  | Set_passthrough_key _ => Param.passthrough_key
  | Set_passthrough_ssid _ => Param.passthrough_ssid
  | Set_bootscreen_path _ => Param.bootscreen_path
  | Set_mastercode _ => Param.mastercode
  | Set_clear_mastercode _ => Param.clear_mastercode
  | Set_timezone _ => Param.timezone
  | Set_drive_mode _ => Param.drive_mode
  end.

Definition int_result (r : Result Z) : Result Value := and_then r (λ n, Ok (VInt n)).
Definition str_result (r : Result string) : Result Value := and_then r (λ s, Ok (VStr s)).

(** [processors[param](value)] *)
Definition processors (item : Setting) : Result Value :=
  match item with
  | Set_wifi_timeout seconds => int_result (timeout seconds)
  | Set_app_info s => str_result (info s)
  | Set_wifi_mode mode => int_result (wifi mode)
  | Set_wifi_key s => str_result (key s)
  | Set_wifi_ssid s => str_result (ssid s)
  | Set_passthrough_key s => str_result (passthrough_key s)
  | Set_passthrough_ssid s => str_result (passthrough_ssid s)
  | Set_bootscreen_path s => str_result (bootscreen_path s)
  | Set_mastercode s => str_result (mastercode s)
  | Set_clear_mastercode v => int_result (clear_mastercode v)
  | Set_timezone hours_offset => int_result (timezone hours_offset)
  | Set_drive_mode mode => int_result (drive mode)
  end.

(** A [dict] keyed by [Param], as the list of its items in insertion order.
    [d[param] = value]: an existing key keeps its place. *)
Fixpoint dict_set (d : list Setting) (item : Setting) : list Setting :=
  match d with
  | [] => [item]
  | x :: rest =>
      if decide (param_of x = param_of item) then item :: rest
      else x :: dict_set rest item
  end.

(** [d.update(other)] *)
Definition dict_update (d other : list Setting) : list Setting :=
  fold_left dict_set other d.

(** [_process_params(params)], run to its end by [dict(...)] *)
Fixpoint _process_params (params : list Setting) : Result (list (string * Value)) :=
  match params with
  | [] => Ok []
  | item :: rest =>
      and_then (processors item) (λ v,
      and_then (_process_params rest) (λ items,
      Ok ((Param.value (param_of item), v) :: items)))
  end.

(** [dict(pairs)]: a later pair replaces an earlier one with the same key. *)
Definition py_dict (pairs : list (string * Value)) : gmap string Value :=
  fold_left (λ m kv, <[kv.1 := kv.2]> m) pairs ∅.

(** [config(param_map, mastercode)] *)
Definition config (param_map : list Setting) (mastercode : string)
  : Result (gmap string Value) :=
  let pmap := dict_update [Set_mastercode mastercode] param_map in
  and_then (_process_params pmap) (λ processed_params, Ok (py_dict processed_params)).

(** The default of [config]'s [mastercode] argument. *)
Definition default_mastercode : string := "BEEFBEEFBEEF".

(** A parameter map is a [dict]: no parameter occurs twice. *)
Definition is_dict (param_map : list Setting) : Prop :=
  NoDup (List.map param_of param_map).

(** A hexadecimal digit, in either case. *)
Definition is_hex_digit (c : ascii) : bool :=
  char_in c "0123456789ABCDEFabcdef".

End config.

(** A parameter map that sets the timezone and the SSID. *)
Definition example_param_map : list config.Setting :=
  [config.Set_timezone 2; config.Set_wifi_ssid "flashair"].
(** * Properties *)

(** ** Sets of records *)

Section PySetFacts.
Context {A : Type} (eqb : A → A → bool).

Lemma set_mem_false (x : A) (s : list A) :
  set_mem eqb x s = false ↔ ∀ y, y ∈ s → eqb x y = false.
Proof.
  unfold set_mem. induction s as [|z s IH]; simpl.
  - split; [intros _ y Hy; inversion Hy | done].
  - rewrite orb_false_iff, IH. split.
    + intros [Hz Hs] y Hy. apply elem_of_cons in Hy as [->|Hy]; auto.
    + intros H. split; [apply H; left | intros y Hy; apply H; by right].
Qed.

Lemma elem_of_set_difference (a b : list A) (x : A) :
  x ∈ set_difference eqb a b ↔ x ∈ a ∧ ∀ y, y ∈ b → eqb x y = false.
Proof.
  unfold set_difference.
  rewrite !list_elem_of_In, filter_In, negb_true_iff, set_mem_false.
  by setoid_rewrite list_elem_of_In.
Qed.

Lemma set_difference_covered (a b : list A) :
  (∀ x, x ∈ a → ∃ y, y ∈ b ∧ eqb x y = true) → set_difference eqb a b = [].
Proof.
  intros Hcov. unfold set_difference.
  induction a as [|x a IH]; simpl; [done|].
  destruct (Hcov x) as (y & Hy & Hxy); [left|].
  assert (set_mem eqb x b = true) as ->.
  { unfold set_mem. apply existsb_exists. exists y. by rewrite <- list_elem_of_In. }
  simpl. apply IH. intros z Hz. apply Hcov. by right.
Qed.

Lemma set_difference_self (s : list A) :
  (∀ x, eqb x x = true) → set_difference eqb s s = [].
Proof. intros Hrefl. apply set_difference_covered. intros x Hx. eauto. Qed.

Lemma set_add_subseteq (s : list A) (x y : A) :
  y ∈ set_add eqb s x → y ∈ s ∨ y = x.
Proof.
  unfold set_add. destruct (set_mem eqb x s); [auto|].
  rewrite elem_of_app, list_elem_of_singleton. tauto.
Qed.

Lemma py_set_from (acc l : list A) (y : A) :
  y ∈ fold_left (set_add eqb) l acc → y ∈ acc ∨ y ∈ l.
Proof.
  revert acc. induction l as [|x l IH]; simpl; intros acc Hy; [auto|].
  apply IH in Hy as [Hy|Hy]; [|right; by right].
  apply set_add_subseteq in Hy as [Hy| ->]; [auto | right; left].
Qed.

Lemma py_set_subseteq (l : list A) (y : A) : y ∈ py_set eqb l → y ∈ l.
Proof.
  intros Hy. apply py_set_from in Hy as [Hy|Hy]; [inversion Hy | done].
Qed.
End PySetFacts.

Lemma SimpleFileInfo_eqb_refl (f : FileInfo) : SimpleFileInfo_eqb f f = true.
Proof. unfold SimpleFileInfo_eqb. by apply bool_decide_eq_true. Qed.

Lemma FileInfo_eqb_refl (f : FileInfo) : FileInfo_eqb f f = true.
Proof. unfold FileInfo_eqb. apply String.eqb_refl. Qed.

Lemma FileInfo_eqb_false (f g : FileInfo) :
  FileInfo_eqb f g = false ↔ remote_key g ≠ remote_key f.
Proof.
  unfold FileInfo_eqb, remote_key. rewrite String.eqb_neq. split; congruence.
Qed.

Lemma SimpleFileInfo_eqb_false (session : Session) (f g : FileInfo) :
  in_local_dir session f → in_local_dir session g →
  SimpleFileInfo_eqb f g = false ↔ local_key g ≠ local_key f.
Proof.
  intros (Hd1 & Hp1 & _) (Hd2 & Hp2 & _).
  unfold SimpleFileInfo_eqb, local_key. rewrite bool_decide_eq_false.
  destruct f as [d1 n1 p1 s1 t1], g as [d2 n2 p2 s2 t2]; simpl in *.
  split; intros H E; apply H; [|congruence].
  inversion E; by subst.
Qed.

Lemma list_local_files_spec (env : Env) (session : Session) (w : World) :
  ∃ l, list_local_files env session w = (Ok l, tick_scandir w) ∧
       Forall (in_local_dir session) l.
Proof.
  unfold list_local_files. eexists. split; [reflexivity|].
  apply Forall_forall. intros f Hf.
  apply list_elem_of_In, filter_In in Hf as [Hf _].
  apply in_map_iff in Hf as (entry & <- & _).
  repeat split; simpl; eauto.
Qed.

(** ** Watchers *)

Ltac unfold_M := unfold mbind, M_bind, mret, M_ret, lift, raise, effect, get_world in *.

Lemma take_watch_chained eqb P next (n : nat) :
  watcher_spec eqb P next →
  ∀ st w, ∃ ys st' w',
    take_watch next n st w = (Ok (ys, st'), w') ∧
    length ys = n ∧ chained eqb P (last_snapshot st) ys.
Proof.
  intros [Hstart Hstep]. induction n as [|n IH]; intros st w.
  - exists [], st, w. done.
  - assert (∃ a s w1, next st w = (Ok (a, s, Watch_yielded (default s (last_snapshot st)) s), w1)
                      ∧ P s ∧ a = set_difference eqb s (default s (last_snapshot st)))
      as (a & s & w1 & Hnext & HP & Ha).
    { destruct st as [|o s0].
      - destruct (Hstart w) as (s & w1 & HP & E). simpl. eauto 10.
      - destruct (Hstep o s0 w) as (s & w1 & HP & E). simpl. eauto 10. }
    destruct (IH (Watch_yielded (default s (last_snapshot st)) s) w1)
      as (ys & st' & w' & Hrun & Hlen & Hch).
    exists ((a, s) :: ys), st', w'. split; [|split].
    + simpl. unfold_M. rewrite Hnext. simpl. by rewrite Hrun.
    + simpl. by rewrite Hlen.
    + simpl. auto.
Qed.

Lemma chained_lookup eqb P prev ys (k : nat) a_old old a new :
  chained eqb P prev ys →
  ys !! k = Some (a_old, old) → ys !! S k = Some (a, new) →
  P old ∧ P new ∧ a = set_difference eqb new old.
Proof.
  revert prev k. induction ys as [|[a0 s0] ys IH]; intros prev k Hch H1 H2; [done|].
  destruct Hch as (HP & _ & Hrest). destruct k as [|k].
  - simpl in H1. injection H1 as -> ->.
    destruct ys as [|[a1 s1] ys]; [done|]. simpl in H2. injection H2 as -> ->.
    destruct Hrest as (HP1 & -> & _). done.
  - simpl in H1, H2. eapply IH; eauto.
Qed.

Lemma watch_local_files_spec (env : Env) (session : Session) :
  watcher_spec SimpleFileInfo_eqb (Forall (in_local_dir session))
    (watch_local_files env session).
Proof.
  assert (∀ l, Forall (in_local_dir session) l →
               Forall (in_local_dir session) (py_set SimpleFileInfo_eqb l)) as Hset.
  { intros l Hl. rewrite Forall_forall in *. intros f Hf.
    apply Hl. by eapply py_set_subseteq. }
  split.
  - intros w. destruct (list_local_files_spec env session w) as (l & E & Hl).
    do 2 eexists. split; [by apply Hset|].
    simpl. unfold_M. rewrite E. reflexivity.
  - intros o s w. destruct (list_local_files_spec env session w) as (l & E & Hl).
    do 2 eexists. split; [by apply Hset|].
    simpl. unfold_M. rewrite E. reflexivity.
Qed.

Lemma watch_remote_files_spec (env : Env) (session : Session) :
  watcher_spec FileInfo_eqb (λ _, True) (watch_remote_files env session).
Proof.
  split.
  - intros w. do 2 eexists. split; [done|]. reflexivity.
  - intros o s w. simpl. unfold_M. unfold command_memory_changed.
    destruct (memory_changed env (memory_changed_calls w)); simpl.
    + do 2 eexists. split; [done|]. reflexivity.
    + do 2 eexists. split; [done|]. reflexivity.
Qed.

(** C1. The arrival set a watcher yields on a tick is the new snapshot minus
    the snapshot of the tick before, by identity key: a record of the new
    snapshot is an arrival exactly when no record of the old snapshot has
    its key (filename, size and timestamp for the local watcher, filename
    for the remote one); and the arrival set is empty when the two snapshots
    are equal.  Every [next] on a watcher returns. *)
Theorem watcher_arrivals_new_minus_old (env : Env) (session : Session) (n : nat) (w : World) :
  (∃ ys st w',
     take_watch (watch_local_files env session) n Watch_start w = (Ok (ys, st), w') ∧
     length ys = n ∧
     ∀ (k : nat) a_old old a new,
       ys !! k = Some (a_old, old) → ys !! S k = Some (a, new) →
       (∀ f, f ∈ a ↔ f ∈ new ∧ ∀ g, g ∈ old → local_key g ≠ local_key f) ∧
       (old = new → a = [])) ∧
  (∃ ys st w',
     take_watch (watch_remote_files env session) n Watch_start w = (Ok (ys, st), w') ∧
     length ys = n ∧
     ∀ (k : nat) a_old old a new,
       ys !! k = Some (a_old, old) → ys !! S k = Some (a, new) →
       (∀ f, f ∈ a ↔ f ∈ new ∧ ∀ g, g ∈ old → remote_key g ≠ remote_key f) ∧
       (old = new → a = [])).
Proof.
  split.
  - destruct (take_watch_chained _ _ _ n (watch_local_files_spec env session) Watch_start w)
      as (ys & st & w' & Hrun & Hlen & Hch).
    exists ys, st, w'. split; [done|]. split; [done|].
    intros k a_old old a new H1 H2.
    destruct (chained_lookup _ _ _ _ _ _ _ _ _ Hch H1 H2) as (Hold & Hnew & ->).
    split.
    + intros f. rewrite elem_of_set_difference. rewrite Forall_forall in Hold, Hnew.
      split; intros [Hf Hg]; (split; [done|]); intros g Hin.
      * apply (SimpleFileInfo_eqb_false session); auto.
      * apply (SimpleFileInfo_eqb_false session); auto.
    + intros ->. apply set_difference_self, SimpleFileInfo_eqb_refl.
  - destruct (take_watch_chained _ _ _ n (watch_remote_files_spec env session) Watch_start w)
      as (ys & st & w' & Hrun & Hlen & Hch).
    exists ys, st, w'. split; [done|]. split; [done|].
    intros k a_old old a new H1 H2.
    destruct (chained_lookup _ _ _ _ _ _ _ _ _ Hch H1 H2) as (_ & _ & ->).
    split.
    + intros f. rewrite elem_of_set_difference.
      split; intros [Hf Hg]; (split; [done|]); intros g Hin; apply FileInfo_eqb_false; auto.
    + intros ->. apply set_difference_self, FileInfo_eqb_refl.
Qed.




(** C5. The remote watcher reads (and so clears) the change signal exactly
    once before its first listing; on every later tick it reads the signal
    once, and if it reads true it lists the remote directory once and yields
    the difference with the previous snapshot, while if it reads false it
    makes no listing call, keeps the previous snapshot and yields an empty
    arrival set. *)
Theorem watch_remote_files_change_signal (env : Env) (session : Session) (w : World) :
  (∃ s0 w',
     watch_remote_files env session Watch_start w
       = (Ok ([], s0, Watch_yielded s0 s0), w') ∧
     s0 = py_set FileInfo_eqb (list_files env (list_files_calls w)) ∧
     memory_changed_calls w' = S (memory_changed_calls w) ∧
     list_files_calls w' = S (list_files_calls w)) ∧
  (∀ old_files new_files, ∃ arrivals snapshot w',
     watch_remote_files env session (Watch_yielded old_files new_files) w
       = (Ok (arrivals, snapshot, Watch_yielded new_files snapshot), w') ∧
     memory_changed_calls w' = S (memory_changed_calls w) ∧
     if memory_changed env (memory_changed_calls w)
     then list_files_calls w' = S (list_files_calls w) ∧
          snapshot = py_set FileInfo_eqb (list_files env (list_files_calls w)) ∧
          arrivals = set_difference FileInfo_eqb snapshot new_files
     else list_files_calls w' = list_files_calls w ∧
          snapshot = new_files ∧
          arrivals = []).
Proof.
  split.
  - do 2 eexists. split.
    + simpl. unfold_M. unfold command_memory_changed, command_list_files. simpl.
      rewrite (set_difference_self _ _ FileInfo_eqb_refl). reflexivity.
    + repeat split.
  - intros old_files new_files.
    simpl. unfold_M. unfold command_memory_changed, command_list_files.
    destruct (memory_changed env (memory_changed_calls w)); simpl.
    + do 3 eexists. split; [reflexivity|]. repeat split.
    + do 3 eexists. split; [reflexivity|]. repeat split.
      apply set_difference_self, FileInfo_eqb_refl.
Qed.

(** Two ticks of the local watcher while A.JPG appears: nothing is reported
    for the initial (empty) listing, A.JPG is reported once, and nothing on
    the tick after. *)
Example watch_local_files_one_arrival :
  (take_watch (watch_local_files local_arrival_env example_session) 3 Watch_start world0).1
    = Ok ([([], []); ([local_A], [local_A]); ([], [local_A])],
          Watch_yielded [local_A] [local_A]).
Proof. vm_compute. reflexivity. Qed.

(** The remote watcher when the device never signals a change: one listing
    in all, whatever the number of ticks. *)
Example watch_remote_files_no_signal :
  list_files_calls
    (take_watch (watch_remote_files quiet_env example_session) 5 Watch_start world0).2 = 1%nat ∧
  memory_changed_calls
    (take_watch (watch_remote_files quiet_env example_session) 5 Watch_start world0).2 = 5%nat.
Proof. split; vm_compute; reflexivity. Qed.

(** ** Reasoning about [M] *)

Lemma bind_Ok {A B} (m : M A) (f : A → M B) (w w' : World) (a : A) :
  m w = (Ok a, w') → (m ≫= f) w = f a w'.
Proof. intros E. unfold_M. by rewrite E. Qed.

Lemma bind_Raise {A B} (m : M A) (f : A → M B) (w w' : World) (e : exn) :
  m w = (Raise e, w') → (m ≫= f) w = (Raise e, w').
Proof. intros E. unfold_M. by rewrite E. Qed.

Lemma try_except_Ok {A} (m : M A) (h : exn → M A) (w w' : World) (a : A) :
  m w = (Ok a, w') → try_except m h w = (Ok a, w').
Proof. intros E. unfold try_except. by rewrite E. Qed.

Lemma try_except_Raise {A} (m : M A) (h : exn → M A) (w w' : World) (e : exn) :
  m w = (Raise e, w') → try_except m h w = h e w'.
Proof. intros E. unfold try_except. by rewrite E. Qed.

(** ** Download *)

Lemma update_pbar_caught (env : Env) (chunk_len : Z) (w : World) :
  pbar_raises_Exception_only env →
  ∃ w', _update_pbar env chunk_len w = (Ok (), w') ∧ fs w' = fs w ∧
        log w' = log w ++ EvPbarUpdate (Z.max (chunk_len / (5 * 10 ^ 5)) 1) ::
                   match pbar_update env (pbar_calls w) with
                   | Some e => [EvLog DEBUG "TQDM progress bar error: {}({})" [AExn e]]
                   | None => []
                   end.
Proof.
  intros Hp. unfold _update_pbar, try_except_Exception, try_except, pbar_update_call.
  destruct (pbar_update env (pbar_calls w)) as [e|] eqn:E.
  - rewrite (Hp _ _ E). eexists. split; [reflexivity|]. split; [done|].
    simpl. by rewrite <- app_assoc.
  - eexists. split; [reflexivity|]. done.
Qed.

Lemma write_chunks (env : Env) (file : string) (chunks : list (list Byte.byte))
    (content : list Byte.byte) (w : World) :
  pbar_raises_Exception_only env →
  fs w !! file = Some content →
  ∃ w', for_each chunks (λ chunk, _ ← _update_pbar env (len chunk); file_write file chunk) w
          = (Ok (), w') ∧
        fs w' = <[file := content ++ concat chunks]> (fs w).
Proof.
  intros Hp. revert content w. induction chunks as [|chunk chunks IH]; intros content w Hc.
  - exists w. split; [done|]. simpl. rewrite app_nil_r. by rewrite insert_id.
  - destruct (update_pbar_caught env (len chunk) w Hp) as (w1 & E1 & Hfs1 & _).
    destruct (file_write file chunk w1) as [r w2] eqn:E2.
    assert (r = Ok () ∧ fs w2 = <[file := content ++ chunk]> (fs w)) as [-> Hfs2].
    { unfold file_write in E2. injection E2 as <- <-. simpl. by rewrite Hfs1, Hc. }
    destruct (IH (content ++ chunk) w2) as (w' & E' & Hfs').
    { by rewrite Hfs2, lookup_insert_eq. }
    exists w'. split.
    + simpl. erewrite bind_Ok; [exact E'|].
      erewrite bind_Ok; [exact E2|exact E1].
    + rewrite Hfs', Hfs2, insert_insert_eq. by rewrite <- app_assoc.
Qed.

(** A stream that is interrupted after the file was opened: the partial
    file is removed and the error of the stream reaches the caller. *)
Lemma write_file_safely_interrupted (env : Env) (local_path : string)
    (fileinfo : FileInfo) (response : Response) (e : exn) (w : World) :
  pbar_raises_Exception_only env →
  status_code response = 200 →
  stream_failure response = Some e →
  ∃ w', _write_file_safely env local_path fileinfo response w = (Raise e, w') ∧
        fs w' = delete local_path (fs w).
Proof.
  intros Hp Hs Hf.
  set (w0 := emit (EvOpen local_path) (set_fs (<[local_path := []]> (fs w)) w)).
  destruct (write_chunks env local_path (iter_content response) [] w0 Hp)
    as (w1 & E1 & Hfs1); [simpl; by rewrite lookup_insert_eq|].
  eexists. split.
  - unfold _write_file_safely. erewrite try_except_Raise.
    2:{ unfold _write_file. rewrite Hs. simpl. apply bind_Raise.
        erewrite bind_Ok; [|reflexivity]. fold w0.
        unfold for_each_chunk. erewrite bind_Ok; [|exact E1]. by rewrite Hf. }
    unfold logger. erewrite bind_Ok; [|reflexivity].
    erewrite bind_Ok; [reflexivity|].
    unfold os_remove. simpl. rewrite Hfs1. simpl. by rewrite lookup_insert_eq.
  - simpl. by rewrite insert_insert_eq, delete_insert_eq.
Qed.


(** A status other than 200: [_write_file] raises before it opens the file,
    and the handler of [_write_file_safely] then calls [os.remove] on a
    path where the download has written nothing. *)
Lemma write_file_bad_status (env : Env) (local_path : string) (fileinfo : FileInfo)
    (response : Response) (w : World) :
  status_code response ≠ 200 →
  _write_file env local_path fileinfo response w
    = (Raise (RequestException "Expected status code 200"), w).
Proof.
  intros Hs. unfold _write_file. apply Z.eqb_neq in Hs. rewrite Hs. reflexivity.
Qed.

Lemma write_file_safely_bad_status_absent (env : Env) (local_path : string)
    (fileinfo : FileInfo) (response : Response) (w : World) :
  status_code response ≠ 200 →
  fs w !! local_path = None →
  ∃ w', _write_file_safely env local_path fileinfo response w
          = (Raise (FileNotFoundError local_path), w') ∧ fs w' = fs w.
Proof.
  intros Hs Hnone. eexists. split.
  - unfold _write_file_safely.
    erewrite try_except_Raise; [|by apply write_file_bad_status].
    unfold logger. erewrite bind_Ok; [|reflexivity].
    apply bind_Raise. unfold os_remove. simpl. by rewrite Hnone.
  - done.
Qed.

Lemma write_file_safely_bad_status_present (env : Env) (local_path : string)
    (fileinfo : FileInfo) (response : Response) (w : World) content :
  status_code response ≠ 200 →
  fs w !! local_path = Some content →
  ∃ w', _write_file_safely env local_path fileinfo response w
          = (Raise (RequestException "Expected status code 200"), w') ∧
        fs w' = delete local_path (fs w).
Proof.
  intros Hs Hsome. eexists. split.
  - unfold _write_file_safely.
    erewrite try_except_Raise; [|by apply write_file_bad_status].
    unfold logger. erewrite bind_Ok; [|reflexivity].
    erewrite bind_Ok; [reflexivity|].
    unfold os_remove. simpl. by rewrite Hsome.
  - done.
Qed.




(** C6 (the code departs from it). A download of a file that does not exist
    locally, answered with status 404: no file is created, but what reaches
    the caller is the [FileNotFoundError] of the cleanup's [os.remove], not
    the transfer error raised for the status. *)
Theorem download_bad_status_raises_FileNotFoundError :
  ∃ w', _sync_remote_file not_found_env remote_X example_session world0
          = (Raise (FileNotFoundError "/home/pics/X.JPG"), w') ∧
        fs w' = ∅ ∧
        log w' =
          [EvLog INFO "Copying remote file {} to {}"
             [AStr "/DCIM/100__TSB/X.JPG"; AStr "/home/pics/X.JPG"];
           EvLog INFO "Requesting file: {}" [AStr "http://flashair/DCIM/100__TSB/X.JPG"];
           EvGet "http://flashair/DCIM/100__TSB/X.JPG";
           EvLog WARNING "{} interrupted writing {} -- cleaning up partial file"
             [AExn (RequestException "Expected status code 200");
              AStr "/home/pics/X.JPG"]].
Proof. eexists. split; [vm_compute; reflexivity|]. split; reflexivity. Qed.

(** Every download that [_sync_remote_file] starts is written to a path
    where no file exists (it was absent, or has just been removed); with a
    status other than 200 the caller therefore always receives the
    [FileNotFoundError]. *)
Lemma sync_remote_file_bad_status (env : Env) (f : FileInfo) (session : Session) (w : World) :
  status_code (requests_get env (get_calls w)
                 (urljoin env (url session) (fi_path f))) ≠ 200 →
  (∀ content, fs w !! path_join (local_dir session) (fi_filename f) = Some content →
              len content ≠ fi_size f) →
  ∃ w', _sync_remote_file env f session w
          = (Raise (FileNotFoundError (path_join (local_dir session) (fi_filename f))), w') ∧
        fs w' = delete (path_join (local_dir session) (fi_filename f)) (fs w).
Proof.
  intros Hs Hsize. unfold _sync_remote_file.
  set (local_name := path_join (local_dir session) (fi_filename f)) in *.
  erewrite bind_Ok; [|reflexivity].
  destruct (fs w !! local_name) as [content|] eqn:Hfile.
  - pose proof (Hsize content eq_refl) as Hne. apply Z.eqb_neq in Hne. rewrite Hne.
    unfold logger. erewrite bind_Ok; [|reflexivity].
    erewrite bind_Ok; [|unfold os_remove; simpl; by rewrite Hfile].
    unfold _stream_to_file, logger. erewrite bind_Ok; [|reflexivity].
    erewrite bind_Ok; [|reflexivity].
    match goal with |- context [_write_file_safely env local_name f ?r ?w0] =>
      destruct (write_file_safely_bad_status_absent env local_name f r w0) as (w' & E & Hfs)
    end; [exact Hs | simpl; by rewrite lookup_delete_eq |].
    exists w'. split; [exact E|]. by rewrite Hfs.
  - unfold _stream_to_file, logger. erewrite bind_Ok; [|reflexivity].
    erewrite bind_Ok; [|reflexivity].
    match goal with |- context [_write_file_safely env local_name f ?r ?w0] =>
      destruct (write_file_safely_bad_status_absent env local_name f r w0) as (w' & E & Hfs)
    end; [exact Hs | done |].
    exists w'. split; [exact E|]. rewrite Hfs. simpl. by rewrite delete_id.
Qed.

(** ** The per-file decision *)

Lemma sync_remote_file_same_size (env : Env) (f : FileInfo) (session : Session)
    (w : World) content :
  fs w !! path_join (local_dir session) (fi_filename f) = Some content →
  len content = fi_size f →
  _sync_remote_file env f session w
    = (Ok (), emit (EvLog INFO "Skipping '{}': already exists locally"
                      [AStr (path_join (local_dir session) (fi_filename f))]) w).
Proof.
  intros Hfile Hsize. unfold _sync_remote_file.
  erewrite bind_Ok; [|reflexivity]. rewrite Hfile, Hsize, Z.eqb_refl. reflexivity.
Qed.

Lemma sync_remote_file_size_differs (env : Env) (f : FileInfo) (session : Session)
    (w : World) content :
  let local_name := path_join (local_dir session) (fi_filename f) in
  fs w !! local_name = Some content →
  len content ≠ fi_size f →
  _sync_remote_file env f session w
    = _stream_to_file env local_name f session
        (emit (EvRemove local_name)
           (set_fs (delete local_name (fs w))
              (emit (EvLog WARNING "Removing {}: local size {} != remote size {}"
                       [AStr local_name; AInt (len content); AInt (fi_size f)]) w))).
Proof.
  intros local_name Hfile Hsize. unfold _sync_remote_file. fold local_name.
  erewrite bind_Ok; [|reflexivity]. rewrite Hfile.
  apply Z.eqb_neq in Hsize. rewrite Hsize.
  unfold logger. erewrite bind_Ok; [|reflexivity].
  erewrite bind_Ok; [reflexivity|]. unfold os_remove. simpl. by rewrite Hfile.
Qed.

Lemma sync_remote_file_absent (env : Env) (f : FileInfo) (session : Session) (w : World) :
  let local_name := path_join (local_dir session) (fi_filename f) in
  fs w !! local_name = None →
  _sync_remote_file env f session w = _stream_to_file env local_name f session w.
Proof.
  intros local_name Hfile. unfold _sync_remote_file. fold local_name.
  erewrite bind_Ok; [|reflexivity]. by rewrite Hfile.
Qed.

Lemma sync_local_file_same_size (env : Env) (f r : FileInfo)
    (d : gmap string FileInfo) (session : PyObj) (w : World) :
  d !! fi_filename f = Some r →
  fi_size f = fi_size r →
  _sync_local_file env f (PyDict d) session w
    = (Ok (), emit (EvLog INFO "Skipping '{}' already exists on SD card"
                      [AStr (fi_filename f)]) w).
Proof.
  intros Hd Hsize. unfold _sync_local_file. simpl.
  erewrite bind_Ok; [|unfold lift; rewrite Hd; reflexivity]. simpl.
  erewrite bind_Ok; [|unfold lift; rewrite Hd; reflexivity].
  by rewrite Hsize, Z.eqb_refl.
Qed.

Lemma sync_local_file_size_differs (env : Env) (f r : FileInfo)
    (d : gmap string FileInfo) (s : Session) (w : World) :
  d !! fi_filename f = Some r →
  fi_size f ≠ fi_size r →
  upload_file env (upload_calls w) = None →
  ∃ w', _sync_local_file env f (PyDict d) (PySession s) w = (Ok (), w') ∧
        log w' = log w ++
          [EvLog WARNING "Removing remote file {}: local size {} != remote size {}"
             [AStr (fi_filename f); AInt (fi_size f); AInt (fi_size r)];
           EvDelete (fi_path r) (PySession s);
           EvLog INFO "Uploading local file {} to {}" [AStr (fi_path f); AStr (remote_dir s)];
           EvUpload (fi_path f) (PySession s)].
Proof.
  intros Hd Hsize Hup. eexists. split.
  - unfold _sync_local_file. simpl.
    erewrite bind_Ok; [|unfold lift; rewrite Hd; reflexivity]. simpl.
    erewrite bind_Ok; [|unfold lift; rewrite Hd; reflexivity].
    apply Z.eqb_neq in Hsize. rewrite Hsize.
    unfold logger. erewrite bind_Ok; [|reflexivity].
    erewrite bind_Ok; [|reflexivity].
    unfold _stream_from_file. simpl.
    erewrite bind_Ok; [|reflexivity]. erewrite bind_Ok; [|reflexivity].
    unfold logger. erewrite bind_Ok; [|reflexivity].
    unfold _upload_file_safely. apply try_except_Ok.
    erewrite bind_Ok; [|reflexivity].
    unfold upload_upload_file. simpl. rewrite Hup. reflexivity.
  - simpl. rewrite <- !app_assoc. reflexivity.
Qed.

(** When the file is absent from the remote listing, the call passes
    [session] and the file record in the wrong order: [_stream_from_file]
    reads [.path] of the session (or [.remote_dir] of the record) and the
    upload is never attempted. *)
Lemma sync_local_file_absent (env : Env) (f : FileInfo) (d : gmap string FileInfo)
    (session : PyObj) (w : World) :
  d !! fi_filename f = None →
  ∃ attr, _sync_local_file env f (PyDict d) session w = (Raise (AttributeError attr), w).
Proof.
  intros Hd. unfold _sync_local_file. simpl.
  erewrite bind_Ok; [|unfold lift; rewrite Hd; reflexivity]. simpl.
  unfold _stream_from_file.
  destruct session; try (eexists; apply bind_Raise; reflexivity).
  eexists. erewrite bind_Ok; [|reflexivity]. apply bind_Raise. reflexivity.
Qed.

(** C2 (the code departs from it). A local file whose name is absent from
    the remote listing is not transferred: [_sync_local_file] raises
    [AttributeError] before any call to the device is made. *)
Theorem sync_local_file_absent_not_transferred :
  _sync_local_file quiet_env local_A (PyDict ∅) (PySession example_session) world0
    = (Raise (AttributeError "path"), world0).
Proof. vm_compute. reflexivity. Qed.

(** ** Cleanup after an interrupted upload *)

Lemma upload_file_safely_interrupted (env : Env) (f : FileInfo) (session : PyObj)
    (e : exn) (w : World) :
  upload_file env (upload_calls w) = Some e →
  ∃ w', _upload_file_safely env (PyFileInfo f) session w = (Raise e, w') ∧
        log w' = log w ++
          [EvUpload (fi_path f) session;
           EvLog WARNING "{} interrupted writing {} -- cleaning up partial remote file"
             [AExn e; AStr (fi_path f)];
           EvDelete (fi_path f) session].
Proof.
  intros Hup. eexists. split.
  - unfold _upload_file_safely. erewrite try_except_Raise.
    2:{ erewrite bind_Ok; [|reflexivity].
        unfold upload_upload_file. simpl. rewrite Hup. reflexivity. }
    erewrite bind_Ok; [|reflexivity]. unfold logger.
    erewrite bind_Ok; [|reflexivity]. erewrite bind_Ok; [|reflexivity].
    erewrite bind_Ok; [|reflexivity]. reflexivity.
  - simpl. rewrite <- !app_assoc. reflexivity.
Qed.

(** C3 (the code departs from it). The local file C.JPG replaces a remote
    copy of another size and the upload is interrupted: the stale copy is
    deleted under its remote path, but the cleanup calls the remote delete
    with the path of the local file, which is not the path of the partial
    file on the device.  The original error is re-raised. *)
Theorem interrupted_upload_deletes_local_path :
  ∃ w', _sync_local_file interrupted_upload_env local_C
          (PyDict {[ "C.JPG" := remote_C ]}) (PySession example_session) world0
          = (Raise (ConnectionError "reset"), w') ∧
        log w' =
          [EvLog WARNING "Removing remote file {}: local size {} != remote size {}"
             [AStr "C.JPG"; AInt 80; AInt 60];
           EvDelete "/DCIM/100__TSB/C.JPG" (PySession example_session);
           EvLog INFO "Uploading local file {} to {}"
             [AStr "/home/pics/C.JPG"; AStr "/DCIM/100__TSB"];
           EvUpload "/home/pics/C.JPG" (PySession example_session);
           EvLog WARNING "{} interrupted writing {} -- cleaning up partial remote file"
             [AExn (ConnectionError "reset"); AStr "/home/pics/C.JPG"];
           EvDelete "/home/pics/C.JPG" (PySession example_session)] ∧
        "/home/pics/C.JPG" ≠ path_join (remote_dir example_session) "C.JPG".
Proof. eexists. split; [vm_compute; reflexivity|]. split; [reflexivity|discriminate]. Qed.

(** ** The log only grows *)

Lemma log_grows_ret {A} (a : A) : log_grows (mret a).
Proof. intros w r w' [= <- <-]. exists []. by rewrite app_nil_r. Qed.

Lemma log_grows_raise {A} (e : exn) : log_grows (raise e : M A).
Proof. intros w r w' [= <- <-]. exists []. by rewrite app_nil_r. Qed.

Lemma log_grows_lift {A} (x : Result A) : log_grows (lift x).
Proof. intros w r w' [= <- <-]. exists []. by rewrite app_nil_r. Qed.

Lemma log_grows_get_world : log_grows get_world.
Proof. intros w r w' [= <- <-]. exists []. by rewrite app_nil_r. Qed.

Lemma log_grows_effect (ev : Event) : log_grows (effect ev).
Proof. intros w r w' [= <- <-]. by exists [ev]. Qed.

Lemma log_grows_logger lvl template args : log_grows (logger lvl template args).
Proof. apply log_grows_effect. Qed.

Lemma log_grows_bind {A B} (m : M A) (f : A → M B) :
  log_grows m → (∀ a, log_grows (f a)) → log_grows (m ≫= f).
Proof.
  intros Hm Hf w r w' E. unfold_M.
  destruct (m w) as [[a|e] w1] eqn:Em.
  - destruct (Hm _ _ _ Em) as [evs1 H1]. destruct (Hf a _ _ _ E) as [evs2 H2].
    exists (evs1 ++ evs2). by rewrite H2, H1, app_assoc.
  - injection E as <- <-. by eapply Hm.
Qed.

Lemma log_grows_try_except {A} (m : M A) (h : exn → M A) :
  log_grows m → (∀ e, log_grows (h e)) → log_grows (try_except m h).
Proof.
  intros Hm Hh w r w' E. unfold try_except in E.
  destruct (m w) as [[a|e] w1] eqn:Em.
  - injection E as <- <-. by eapply Hm.
  - destruct (Hm _ _ _ Em) as [evs1 H1]. destruct (Hh e _ _ _ E) as [evs2 H2].
    exists (evs1 ++ evs2). by rewrite H2, H1, app_assoc.
Qed.

Lemma log_grows_for_each {A} (xs : list A) (body : A → M unit) :
  (∀ x, log_grows (body x)) → log_grows (for_each xs body).
Proof.
  intros Hbody. induction xs as [|x xs IH]; simpl.
  - apply log_grows_ret.
  - apply log_grows_bind; auto.
Qed.

Lemma log_grows_os_remove file : log_grows (os_remove file).
Proof.
  intros w r w' E. unfold os_remove in E. destruct (fs w !! file).
  - injection E as <- <-. by eexists [_].
  - injection E as <- <-. exists []. by rewrite app_nil_r.
Qed.

Lemma log_grows_open_wb file : log_grows (open_wb file).
Proof. intros w r w' [= <- <-]. by eexists [_]. Qed.

Lemma log_grows_file_write file chunk : log_grows (file_write file chunk).
Proof. intros w r w' [= <- <-]. by eexists [_]. Qed.

Lemma log_grows_pbar_update_call env n : log_grows (pbar_update_call env n).
Proof.
  intros w r w' E. unfold pbar_update_call in E.
  destruct (pbar_update env (pbar_calls w)); injection E as <- <-; by eexists [_].
Qed.

Lemma log_grows_requests_get_call env u : log_grows (requests_get_call env u).
Proof. intros w r w' [= <- <-]. by eexists [_]. Qed.

Lemma log_grows_upload_upload_file env p session :
  log_grows (upload_upload_file env p session).
Proof.
  intros w r w' E. unfold upload_upload_file in E.
  destruct (upload_file env (upload_calls w)); injection E as <- <-; by eexists [_].
Qed.

Lemma log_grows_command_map_files_raw env session :
  log_grows (command_map_files_raw env session).
Proof. intros w r w' [= <- <-]. exists []. by rewrite app_nil_r. Qed.

Ltac log_grows_step :=
  first
    [ apply log_grows_ret | apply log_grows_raise | apply log_grows_lift
    | apply log_grows_get_world | apply log_grows_effect | apply log_grows_logger
    | apply log_grows_os_remove | apply log_grows_open_wb | apply log_grows_file_write
    | apply log_grows_pbar_update_call | apply log_grows_requests_get_call
    | apply log_grows_upload_upload_file | apply log_grows_command_map_files_raw
    | apply log_grows_bind; [|intros ?]
    | apply log_grows_try_except; [|intros ?]
    | apply log_grows_for_each; intros ?
    | match goal with
      | |- log_grows (if ?b then _ else _) => destruct b
      | |- log_grows (match ?x with _ => _ end) => destruct x
      end ].

Lemma log_grows_down_by_files env to_sync session :
  log_grows (down_by_files env to_sync session).
Proof.
  unfold down_by_files, _sync_remote_file, _stream_to_file, _get_file,
    _write_file_safely, _write_file, for_each_chunk, _update_pbar,
    try_except_Exception.
  repeat log_grows_step.
Qed.

Lemma log_grows_up_by_files env to_sync remote_files session :
  log_grows (up_by_files env to_sync remote_files session).
Proof.
  unfold up_by_files, _sync_local_file, _stream_from_file, _upload_file_safely,
    upload_delete_file.
  repeat log_grows_step.
Qed.

(** ** Orchestrator runs *)

Lemma watch_local_files_total env session st w :
  ∃ a s st' w', watch_local_files env session st w = (Ok (a, s, st'), w') ∧ log w' = log w.
Proof. destruct st; do 4 eexists; (split; [reflexivity|done]). Qed.

Lemma watch_remote_files_total env session st w :
  ∃ a s st' w', watch_remote_files env session st w = (Ok (a, s, st'), w') ∧ log w' = log w.
Proof.
  destruct st as [|o s].
  - do 4 eexists. split; [reflexivity|done].
  - simpl. unfold_M. unfold command_memory_changed, command_list_files.
    destruct (memory_changed env (memory_changed_calls w)); simpl;
      do 4 eexists; (split; [reflexivity|done]).
Qed.

Lemma truthy_false {A} (l : list A) : truthy l = false ↔ l = [].
Proof. by destruct l. Qed.

Lemma up_by_arrival_loop_total env session mon w :
  ∃ a s mon' w', up_by_arrival_loop env session mon w
                   = (Ok ((up, a), Up_yielded a s mon'), w') ∧ log w' = log w.
Proof.
  destruct (watch_local_files_total env session mon w) as (a & s & mon' & w' & E & Hl).
  exists a, s, mon', w'. split; [|done].
  unfold up_by_arrival_loop. erewrite bind_Ok; [|exact E]. reflexivity.
Qed.

Lemma up_by_arrival_steps env session (n : nat) :
  ∀ a file_set mon w, ∃ evs,
    log (drive (up_by_arrival env session) n (Up_yielded a file_set mon) w).2
      = log w ++ evs ∧
    up_steps env session a evs.
Proof.
  induction n as [|n IH]; intros a file_set mon w.
  { exists []. split; [by rewrite app_nil_r|constructor]. }
  cbn [drive up_by_arrival]. destruct a as [|f a].
  - (* nothing pending *)
    destruct (up_by_arrival_loop_total env session mon w) as (a' & s & mon' & w1 & E & Hl).
    destruct (IH a' s mon' (emit (EvYield up a') w1)) as (evs & Hlog & Hsteps).
    exists (EvYield up a' :: evs). split; [|by constructor].
    erewrite bind_Ok; [|erewrite bind_Ok; [exact E|reflexivity]].
    cbv beta iota. erewrite bind_Ok; [|reflexivity].
    rewrite Hlog. simpl. rewrite Hl. by rewrite <- app_assoc.
  - (* the yielded arrivals are transferred now *)
    set (arrivals := f :: a) in *.
    set (w0 := emit (notify_event up arrivals) w).
    destruct (up_by_files env arrivals (PyStr (remote_dir session))
                (PySession (default_session env)) w0) as [[[]|e] w2] eqn:Eup.
    + destruct (log_grows_up_by_files _ _ _ _ _ _ _ Eup) as [tevs Htevs].
      set (w3 := emit (ready_event (len file_set) (local_dir session) (remote_dir session)) w2).
      destruct (up_by_arrival_loop_total env session mon w3) as (a' & s & mon' & w4 & E & Hl).
      destruct (IH a' s mon' (emit (EvYield up a') w4)) as (evs & Hlog & Hsteps).
      exists (notify_event up arrivals :: tevs ++
              ready_event (len file_set) (local_dir session) (remote_dir session) ::
              EvYield up a' :: evs).
      split.
      * erewrite bind_Ok.
        2:{ erewrite bind_Ok; [exact E|]. simpl.
            erewrite bind_Ok; [|reflexivity]. fold w0.
            erewrite bind_Ok; [|exact Eup]. reflexivity. }
        cbv beta iota. erewrite bind_Ok; [|reflexivity].
        rewrite Hlog. simpl. rewrite Hl. simpl. rewrite Htevs. simpl.
        rewrite <- !app_assoc. reflexivity.
      * apply up_steps_transfer; [done| |done]. by exists w0, w2.
    + destruct (log_grows_up_by_files _ _ _ _ _ _ _ Eup) as [tevs Htevs].
      exists (notify_event up arrivals :: tevs). split.
      * erewrite bind_Raise.
        2:{ apply bind_Raise. simpl. erewrite bind_Ok; [|reflexivity]. fold w0.
            apply bind_Raise. exact Eup. }
        simpl. rewrite Htevs. simpl. by rewrite <- app_assoc.
      * apply (up_steps_raise _ _ _ _ e); [done|]. by exists w0, w2.
Qed.

Lemma down_by_arrival_steps env session (n : nat) :
  ∀ mon w, ∃ evs,
    log (drive (down_by_arrival env session) n (Down_yielded mon) w).2 = log w ++ evs ∧
    down_steps env session evs.
Proof.
  induction n as [|n IH]; intros mon w.
  { exists []. split; [by rewrite app_nil_r|constructor]. }
  cbn [drive down_by_arrival]. unfold down_by_arrival_loop.
  destruct (watch_remote_files_total env session mon w) as (a & s & mon' & w1 & E & Hl).
  destruct a as [|f a].
  - (* no arrivals: the step is yielded at once *)
    destruct (IH mon' (emit (EvYield down []) w1)) as (evs & Hlog & Hsteps).
    exists (EvYield down [] :: evs). split; [|by constructor].
    erewrite bind_Ok; [|erewrite bind_Ok; [|exact E]; reflexivity].
    cbv beta iota. erewrite bind_Ok; [|reflexivity].
    etrans; [exact Hlog|]. simpl. rewrite Hl. by rewrite <- app_assoc.
  - (* arrivals: they are transferred before the step is yielded *)
    set (arrivals := f :: a) in *.
    set (w0 := emit (notify_event down arrivals) w1).
    destruct (down_by_files env arrivals session w0) as [[[]|e] w2] eqn:Edown.
    + destruct (log_grows_down_by_files _ _ _ _ _ _ Edown) as [tevs Htevs].
      set (w3 := emit (ready_event (len s) (remote_dir session) (local_dir session)) w2).
      destruct (IH mon' (emit (EvYield down arrivals) w3)) as (evs & Hlog & Hsteps).
      exists (notify_event down arrivals :: tevs ++
              ready_event (len s) (remote_dir session) (local_dir session) ::
              EvYield down arrivals :: evs).
      split.
      * erewrite bind_Ok.
        2:{ erewrite bind_Ok; [|exact E]. simpl.
            erewrite bind_Ok; [reflexivity|].
            erewrite bind_Ok; [|reflexivity]. fold w0.
            erewrite bind_Ok; [|exact Edown]. reflexivity. }
        cbv beta iota. erewrite bind_Ok; [|reflexivity].
        etrans; [exact Hlog|]. simpl. rewrite Htevs. simpl. rewrite Hl.
        rewrite <- !app_assoc. reflexivity.
      * apply down_steps_transfer; [done| |done]. by exists w0, w2.
    + destruct (log_grows_down_by_files _ _ _ _ _ _ Edown) as [tevs Htevs].
      exists (notify_event down arrivals :: tevs). split.
      * erewrite bind_Raise.
        2:{ erewrite bind_Ok; [|exact E]. simpl. apply bind_Raise.
            erewrite bind_Ok; [|reflexivity]. fold w0.
            apply bind_Raise. exact Edown. }
        simpl. rewrite Htevs. simpl. rewrite Hl. by rewrite <- app_assoc.
      * apply (down_steps_raise _ _ _ _ e); [done|]. by exists w0, w2.
Qed.

Lemma up_down_by_arrival_loop_total env session processed lm rm w :
  ∃ la ls nr rs lm' rm' w',
    up_down_by_arrival_loop env session processed lm rm w
      = (Ok ((up, la), UpDown_yielded_up la ls nr rs processed lm' rm'), w') ∧
    log w' = log w.
Proof.
  destruct (watch_local_files_total env session lm w) as (nl & ls & lm' & w1 & E1 & Hl1).
  destruct (watch_remote_files_total env session rm w1) as (nr & rs & rm' & w2 & E2 & Hl2).
  eexists _, ls, nr, rs, lm', rm', w2. split; [|by rewrite Hl2].
  unfold up_down_by_arrival_loop.
  erewrite bind_Ok; [|exact E1]. cbv beta iota.
  erewrite bind_Ok; [|exact E2]. reflexivity.
Qed.

Lemma up_down_by_arrival_steps env session (n : nat) :
  ∀ st p w, pending_of st = Some p → ∃ evs,
    log (drive (up_down_by_arrival env session) n st w).2 = log w ++ evs ∧
    up_down_steps env session p evs.
Proof.
  induction n as [|n IH]; intros st p w Hp.
  { exists []. split; [by rewrite app_nil_r|constructor]. }
  cbn [drive].
  destruct st as [|la ls nr rs processed lm rm|ra rs processed lm rm|ra rs processed lm rm];
    simplify_eq/=.
  - (* after [yield Direction.up, local_arrivals] *)
    destruct la as [|f la].
    + simpl. set (ra := not_processed FileInfo_eqb processed nr).
      destruct (IH (UpDown_yielded_down ra rs processed lm rm) _
                  (emit (EvYield down ra) w) eq_refl) as (evs & Hlog & Hsteps).
      exists (EvYield down ra :: evs). split; [|constructor; exact Hsteps].
      unfold_M. simpl. unfold_M. etrans; [exact Hlog|]. simpl. by rewrite <- app_assoc.
    + set (arrivals := f :: la) in *.
      set (w0 := emit (notify_event up arrivals) w).
      destruct (up_by_files env arrivals (PyStr (remote_dir session))
                  (PySession (default_session env)) w0) as [[[]|e] w2] eqn:Eup.
      * destruct (log_grows_up_by_files _ _ _ _ _ _ _ Eup) as [tevs Htevs].
        set (w3 := emit (ready_event (len ls) (local_dir session) (remote_dir session)) w2).
        set (processed' := processed_update processed arrivals).
        set (ra := not_processed FileInfo_eqb processed' nr).
        destruct (IH (UpDown_yielded_down ra rs processed' lm rm) _
                    (emit (EvYield down ra) w3) eq_refl) as (evs & Hlog & Hsteps).
        exists (notify_event up arrivals :: tevs ++
                ready_event (len ls) (local_dir session) (remote_dir session) ::
                EvYield down ra :: evs).
        split; [|apply up_down_steps_up_transfer; [done| |exact Hsteps]; by exists w0, w2].
        erewrite bind_Ok.
        2:{ erewrite bind_Ok; [reflexivity|]. simpl.
            erewrite bind_Ok; [|reflexivity]. fold w0.
            erewrite bind_Ok; [|exact Eup].
            erewrite bind_Ok; [|reflexivity]. reflexivity. }
        cbv beta iota. erewrite bind_Ok; [|reflexivity].
        fold processed' w3. etrans; [exact Hlog|]. simpl. rewrite Htevs. simpl.
        rewrite <- !app_assoc. reflexivity.
      * destruct (log_grows_up_by_files _ _ _ _ _ _ _ Eup) as [tevs Htevs].
        exists (notify_event up arrivals :: tevs).
        split; [|apply (up_down_steps_up_raise _ _ _ _ e); [done|]; by exists w0, w2].
        erewrite bind_Raise.
        2:{ apply bind_Raise. simpl. erewrite bind_Ok; [|reflexivity]. fold w0.
            apply bind_Raise. exact Eup. }
        simpl. rewrite Htevs. simpl. by rewrite <- app_assoc.
  - (* after the first [yield Direction.down, remote_arrivals] *)
    destruct ra as [|f ra].
    + simpl.
      destruct (up_down_by_arrival_loop_total env session processed lm rm w)
        as (la & ls & nr & rs' & lm' & rm' & w1 & E & Hl).
      edestruct (IH (UpDown_yielded_up la ls nr rs' processed lm' rm') _
                   (emit (EvYield up la) w1) eq_refl) as (evs & Hlog & Hsteps).
      exists (EvYield up la :: evs). split; [|constructor; exact Hsteps].
      erewrite bind_Ok; [|exact E].
      cbv beta iota. erewrite bind_Ok; [|reflexivity].
      etrans; [exact Hlog|]. simpl. rewrite Hl. by rewrite <- app_assoc.
    + set (arrivals := f :: ra) in *.
      edestruct (IH (UpDown_yielded_down_again arrivals rs
                       (processed_update processed arrivals) lm rm) _
                   (emit (EvYield down arrivals) (emit (notify_event down arrivals) w))
                   eq_refl) as (evs & Hlog & Hsteps).
      exists (notify_event down arrivals :: EvYield down arrivals :: evs).
      split; [|by constructor].
      erewrite bind_Ok; [|simpl; erewrite bind_Ok; reflexivity].
      cbv beta iota. erewrite bind_Ok; [|reflexivity].
      etrans; [exact Hlog|]. simpl. rewrite <- !app_assoc. reflexivity.
  - (* after the second [yield Direction.down, remote_arrivals] *)
    destruct (down_by_files env ra session w) as [[[]|e] w2] eqn:Edown.
    + destruct (log_grows_down_by_files _ _ _ _ _ _ Edown) as [tevs Htevs].
      set (w3 := emit (ready_event (len rs) (remote_dir session) (local_dir session)) w2).
      destruct (up_down_by_arrival_loop_total env session processed lm rm w3)
        as (la & ls & nr & rs' & lm' & rm' & w4 & E & Hl).
      edestruct (IH (UpDown_yielded_up la ls nr rs' processed lm' rm') _
                   (emit (EvYield up la) w4) eq_refl) as (evs & Hlog & Hsteps).
      exists (tevs ++ ready_event (len rs) (remote_dir session) (local_dir session) ::
              EvYield up la :: evs).
      split; [|eapply up_down_steps_down_transfer; [|exact Hsteps]; by exists w, w2].
      erewrite bind_Ok.
      2:{ simpl. erewrite bind_Ok; [|exact Edown].
          erewrite bind_Ok; [|reflexivity]. exact E. }
      cbv beta iota. erewrite bind_Ok; [|reflexivity].
      etrans; [exact Hlog|]. simpl. rewrite Hl. simpl. rewrite Htevs.
      rewrite <- !app_assoc. reflexivity.
    + destruct (log_grows_down_by_files _ _ _ _ _ _ Edown) as [tevs Htevs].
      exists tevs.
      split; [|apply (up_down_steps_down_raise _ _ _ _ e); by exists w, w2].
      erewrite bind_Raise; [|simpl; apply bind_Raise; exact Edown].
      simpl. exact Htevs.
Qed.

Lemma drive_S {St : Type} (next : St → M (Step * St)) (n : nat) (st st' : St)
    (w w' : World) :
  next st w = next st' w' → drive next (S n) st w = drive next (S n) st' w'.
Proof. intros E. cbn [drive]. unfold_M. by rewrite E. Qed.

(** C7. The log of a run of each orchestrator, yields included.  In up-only
    and in bidirectional mode the record that opens the transfer of an
    arrival set, and with it every effect of the transfer, comes after the
    yield of that set; in down-only mode the transfer of a non-empty arrival
    set has run to completion before the set is yielded. *)
Theorem yield_order_by_mode (env : Env) (session : Session) (n : nat) (w : World) :
  (∃ k a evs,
     log (drive (up_by_arrival env session) (S n) Up_start w).2
       = log w ++ ready_event k (local_dir session) (remote_dir session) ::
                  EvYield up a :: evs ∧
     up_steps env session a evs) ∧
  (∃ k k' a evs,
     log (drive (up_down_by_arrival env session) (S n) UpDown_start w).2
       = log w ++ ready_event k (local_dir session) (remote_dir session) ::
                  ready_event k' (remote_dir session) (local_dir session) ::
                  EvYield up a :: evs ∧
     up_down_steps env session (After_up a) evs) ∧
  (∃ k evs,
     log (drive (down_by_arrival env session) (S n) Down_start w).2
       = log w ++ ready_event k (remote_dir session) (local_dir session) :: evs ∧
     down_steps env session evs).
Proof.
  split; [|split].
  - destruct (watch_local_files_total env session Watch_start w)
      as (a0 & s0 & mon0 & w1 & E0 & Hl0).
    set (w2 := emit (ready_event (len s0) (local_dir session) (remote_dir session)) w1).
    destruct (up_by_arrival_loop_total env session mon0 w2)
      as (a & s & mon & w3 & E & Hl).
    destruct (up_by_arrival_steps env session n a s mon (emit (EvYield up a) w3))
      as (evs & Hlog & Hsteps).
    exists (len s0), a, evs. split; [|done].
    cbn [drive up_by_arrival]. erewrite bind_Ok.
    2:{ erewrite bind_Ok; [|exact E0]. cbv beta iota.
        erewrite bind_Ok; [|reflexivity]. exact E. }
    cbv beta iota. erewrite bind_Ok; [|reflexivity].
    etrans; [exact Hlog|]. simpl. rewrite Hl. simpl. rewrite Hl0.
    rewrite <- !app_assoc. reflexivity.
  - destruct (watch_local_files_total env session Watch_start w)
      as (a0 & s0 & lm0 & w1 & E0 & Hl0).
    destruct (watch_remote_files_total env session Watch_start w1)
      as (b0 & r0 & rm0 & w2 & E1 & Hl1).
    set (w3 := emit (ready_event (len r0) (remote_dir session) (local_dir session))
                 (emit (ready_event (len s0) (local_dir session) (remote_dir session)) w2)).
    destruct (up_down_by_arrival_loop_total env session ∅ lm0 rm0 w3)
      as (la & ls & nr & rs & lm & rm & w4 & E & Hl).
    destruct (up_down_by_arrival_steps env session n
                (UpDown_yielded_up la ls nr rs ∅ lm rm) _ (emit (EvYield up la) w4) eq_refl)
      as (evs & Hlog & Hsteps).
    exists (len s0), (len r0), la, evs. split; [|done].
    cbn [drive up_down_by_arrival]. erewrite bind_Ok.
    2:{ erewrite bind_Ok; [|exact E0]. cbv beta iota.
        erewrite bind_Ok; [|exact E1]. cbv beta iota.
        erewrite bind_Ok; [|reflexivity]. erewrite bind_Ok; [|reflexivity]. exact E. }
    cbv beta iota. erewrite bind_Ok; [|reflexivity].
    etrans; [exact Hlog|]. simpl. rewrite Hl. simpl. rewrite Hl1, Hl0.
    rewrite <- !app_assoc. reflexivity.
  - destruct (watch_remote_files_total env session Watch_start w)
      as (a0 & s0 & mon0 & w1 & E0 & Hl0).
    set (w2 := emit (ready_event (len s0) (remote_dir session) (local_dir session)) w1).
    destruct (down_by_arrival_steps env session (S n) mon0 w2) as (evs & Hlog & Hsteps).
    exists (len s0), evs. split; [|done].
    rewrite (drive_S _ n Down_start (Down_yielded mon0) w w2).
    + etrans; [exact Hlog|]. simpl. rewrite Hl0. by rewrite <- app_assoc.
    + cbn [down_by_arrival]. erewrite bind_Ok; [|exact E0]. cbv beta iota.
      erewrite bind_Ok; [|reflexivity]. reflexivity.
Qed.

(** ** Bidirectional mode *)

Lemma not_processed_spec eqb (processed : gset string) (l : list FileInfo) (f : FileInfo) :
  f ∈ not_processed eqb processed l → f ∈ l ∧ fi_filename f ∉ processed.
Proof.
  intros Hf%py_set_subseteq. apply list_elem_of_In, filter_In in Hf as [Hf Hp].
  split; [by apply list_elem_of_In|]. by apply bool_decide_eq_true in Hp.
Qed.

Lemma processed_update_spec (processed : gset string) (a : list FileInfo) (f : FileInfo) :
  f ∈ a → fi_filename f ∈ processed_update processed a.
Proof.
  intros Hf. unfold processed_update. apply elem_of_union_r, elem_of_list_to_set.
  apply list_elem_of_In, in_map, list_elem_of_In, Hf.
Qed.

(** In the arrival-driven modes [up_by_files] receives the remote directory
    name where it expects the remote listing; with anything to upload it
    raises before it reaches the device. *)
Lemma up_by_files_on_directory_name (env : Env) (f : FileInfo) (rest : list FileInfo)
    (d : string) (s : Session) (w : World) :
  ∃ e, up_by_files env (f :: rest) (PyStr d) (PySession s) w = (Raise e, w).
Proof.
  unfold up_by_files. erewrite bind_Ok; [|reflexivity].
  cbn [for_each]. unfold _sync_local_file.
  destruct (str_contains (fi_filename f) d) eqn:Hin.
  - eexists. apply bind_Raise. erewrite bind_Ok; [|simpl; rewrite Hin; reflexivity].
    apply bind_Raise. reflexivity.
  - eexists. apply bind_Raise. erewrite bind_Ok; [|simpl; rewrite Hin; reflexivity].
    apply bind_Raise. reflexivity.
Qed.

(** C4 (the code departs from it). A tick on which X.JPG has arrived on the
    card and nothing has arrived locally: the remote arrivals are handed to
    the caller twice, once before and once after the announcement of the
    download. *)
Theorem remote_arrivals_yielded_twice :
  ∃ st w', drive (up_down_by_arrival remote_arrival_env example_session) 3
             UpDown_start world0 = (Ok st, w') ∧
    log w' =
      [ready_event 0 "/home/pics" "/DCIM/100__TSB";
       ready_event 0 "/DCIM/100__TSB" "/home/pics";
       EvYield up [];
       EvYield down [remote_X];
       notify_event down [remote_X];
       EvYield down [remote_X]].
Proof. do 2 eexists. split; [vm_compute; reflexivity|]. reflexivity. Qed.

(** In the same mode a local arrival ends the run: the upload raises. *)
Lemma bidirectional_upload_raises :
  ∃ w', drive (up_down_by_arrival local_arrival_env example_session) 2
          UpDown_start world0 = (Raise (AttributeError "path"), w') ∧
    log w' =
      [ready_event 0 "/home/pics" "/DCIM/100__TSB";
       ready_event 0 "/DCIM/100__TSB" "/home/pics";
       EvYield up [local_A];
       notify_event up [local_A]].
Proof. eexists. split; [vm_compute; reflexivity|]. reflexivity. Qed.

(** ** Monitor *)



(** * Further properties of sync.py *)

(** ** What a computation leaves alone *)

Lemma keeps_ret {A X} (p : World → X) (a : A) : keeps p (mret a).
Proof. by intros w r w' [= <- <-]. Qed.

Lemma keeps_raise {A X} (p : World → X) (e : exn) : keeps p (raise e : M A).
Proof. by intros w r w' [= <- <-]. Qed.

Lemma keeps_lift {A X} (p : World → X) (x : Result A) : keeps p (lift x).
Proof. by intros w r w' [= <- <-]. Qed.

Lemma keeps_get_world {X} (p : World → X) : keeps p get_world.
Proof. by intros w r w' [= <- <-]. Qed.

Lemma keeps_bind {A B X} (p : World → X) (m : M A) (f : A → M B) :
  keeps p m → (∀ a, keeps p (f a)) → keeps p (m ≫= f).
Proof.
  intros Hm Hf w r w' E. unfold_M.
  destruct (m w) as [[a|e] w1] eqn:Em.
  - rewrite (Hf a _ _ _ E). by eapply Hm.
  - injection E as <- <-. by eapply Hm.
Qed.

Lemma keeps_try_except {A X} (p : World → X) (m : M A) (h : exn → M A) :
  keeps p m → (∀ e, keeps p (h e)) → keeps p (try_except m h).
Proof.
  intros Hm Hh w r w' E. unfold try_except in E.
  destruct (m w) as [[a|e] w1] eqn:Em.
  - injection E as <- <-. by eapply Hm.
  - rewrite (Hh e _ _ _ E). by eapply Hm.
Qed.

Lemma keeps_for_each {A X} (p : World → X) (xs : list A) (body : A → M unit) :
  (∀ x, keeps p (body x)) → keeps p (for_each xs body).
Proof.
  intros Hbody. induction xs as [|x xs IH]; simpl.
  - apply keeps_ret.
  - apply keeps_bind; auto.
Qed.

(** A primitive of the world: unfold it and compare the two worlds. *)
Ltac keeps_primitive :=
  let E := fresh "E" in
  intros ? ? ? E;
  unfold effect, logger, os_remove, open_wb, file_write, pbar_update_call,
    requests_get_call, upload_upload_file, upload_delete_file, effect,
    command_map_files_raw, command_list_files, command_memory_changed,
    list_local_files in E;
  repeat case_match; simplify_eq; reflexivity.

Ltac keeps_step :=
  first
    [ apply keeps_ret | apply keeps_raise | apply keeps_lift | apply keeps_get_world
    | apply keeps_bind; [|intros ?]
    | apply keeps_try_except; [|intros ?]
    | apply keeps_for_each; intros ?
    | match goal with
      | |- keeps _ (if ?b then _ else _) => destruct b
      | |- keeps _ (match ?x with _ => _ end) => destruct x
      end
    | keeps_primitive ].


Lemma keeps_upload_calls_down_by_files env to_sync session :
  keeps upload_calls (down_by_files env to_sync session).
Proof.
  unfold down_by_files, _sync_remote_file, _stream_to_file, _get_file,
    _write_file_safely, _write_file, for_each_chunk, _update_pbar,
    try_except_Exception.
  repeat keeps_step.
Qed.

Lemma keeps_fs_up_by_files env to_sync remote_files session :
  keeps fs (up_by_files env to_sync remote_files session).
Proof.
  unfold up_by_files, _sync_local_file, _stream_from_file, _upload_file_safely.
  repeat keeps_step.
Qed.

Lemma keeps_get_calls_up_by_files env to_sync remote_files session :
  keeps get_calls (up_by_files env to_sync remote_files session).
Proof.
  unfold up_by_files, _sync_local_file, _stream_from_file, _upload_file_safely.
  repeat keeps_step.
Qed.

(** ** Downloading one file *)




(** X2. A download that [_sync_remote_file] starts and whose stream is
    interrupted after the status 200 raises the error of the stream and
    leaves no file at [local_dir/filename]: the partial file is removed, and
    so a stale copy that was being replaced is lost as well. *)
Theorem download_interrupted_leaves_no_file (env : Env) (f : FileInfo) (session : Session)
    (e : exn) (w : World) :
  pbar_raises_Exception_only env →
  status_code (requests_get env (get_calls w) (urljoin env (url session) (fi_path f))) = 200 →
  stream_failure (requests_get env (get_calls w) (urljoin env (url session) (fi_path f)))
    = Some e →
  (∀ content, fs w !! path_join (local_dir session) (fi_filename f) = Some content →
              len content ≠ fi_size f) →
  ∃ w', _sync_remote_file env f session w = (Raise e, w') ∧
        fs w' = delete (path_join (local_dir session) (fi_filename f)) (fs w).
Proof.
  intros Hp Hs Hf Hsize.
  assert (∀ w0, get_calls w0 = get_calls w →
            ∃ w', _stream_to_file env (path_join (local_dir session) (fi_filename f))
                    f session w0 = (Raise e, w') ∧
                  fs w' = delete (path_join (local_dir session) (fi_filename f)) (fs w0))
    as Hstream.
  { intros w0 Hg. unfold _stream_to_file, _get_file, logger, requests_get_call.
    erewrite bind_Ok; [|reflexivity]. erewrite bind_Ok; [|reflexivity].
    simpl. rewrite Hg.
    match goal with |- context [_write_file_safely env ?ln f ?r ?w1] =>
      destruct (write_file_safely_interrupted env ln f r e w1 Hp Hs Hf) as (w' & E & Hfs)
    end.
    exists w'. split; [exact E|]. by rewrite Hfs. }
  destruct (fs w !! path_join (local_dir session) (fi_filename f)) as [content|] eqn:Hfile.
  - rewrite (sync_remote_file_size_differs env f session w content Hfile
               (Hsize content eq_refl)).
    match goal with |- context [_stream_to_file env ?ln f session ?w0] =>
      destruct (Hstream w0 eq_refl) as (w' & E & Hfs)
    end.
    exists w'. split; [exact E|]. rewrite Hfs. simpl. by rewrite delete_delete_eq.
  - rewrite (sync_remote_file_absent env f session w Hfile).
    by apply Hstream.
Qed.

(** X2 at a stale local copy of X.JPG. *)
Lemma download_interrupted_leaves_no_file_witness :
  ∃ w', _sync_remote_file broken_stream_env remote_X example_session
          (set_fs {[ "/home/pics/X.JPG" := [Byte.x09] ]} world0)
          = (Raise (ConnectionError "reset"), w') ∧
        fs w' = ∅.
Proof.
  destruct (download_interrupted_leaves_no_file broken_stream_env remote_X example_session
              (ConnectionError "reset")
              (set_fs {[ "/home/pics/X.JPG" := [Byte.x09] ]} world0))
    as (w' & E & Hfs).
  - intros k e [=].
  - reflexivity.
  - reflexivity.
  - intros content [= <-]. vm_compute. discriminate.
  - exists w'. split; [exact E|]. rewrite Hfs. vm_compute. reflexivity.
Defined.

(** ** Downloading a batch *)

Lemma for_each_app {A} (xs ys : list A) (body : A → M unit) (w : World) :
  for_each (xs ++ ys) body w
  = match for_each xs body w with
    | (Ok _, w1) => for_each ys body w1
    | (Raise e, w1) => (Raise e, w1)
    end.
Proof.
  revert w. induction xs as [|x xs IH]; intros w; [done|].
  simpl. unfold_M. destruct (body x w) as [[[]|e] w1]; [apply IH|done].
Qed.

Lemma down_by_files_in_sync env to_sync session w :
  (∀ f, f ∈ to_sync →
     ∃ content, fs w !! path_join (local_dir session) (fi_filename f) = Some content ∧
                len content = fi_size f) →
  ∃ w' evs, down_by_files env to_sync session w = (Ok (), w') ∧
        fs w' = fs w ∧ get_calls w' = get_calls w ∧
        list_files_calls w' = list_files_calls w ∧
        log w' = log w ++ evs ∧ Forall (λ ev, device_event ev = false) evs.
Proof.
  unfold down_by_files. revert w.
  induction to_sync as [|f to_sync IH]; intros w Hsync.
  - exists w, []. repeat split; [by rewrite app_nil_r|done].
  - destruct (Hsync f) as (content & Hfile & Hsize); [left|].
    set (ev := EvLog INFO "Skipping '{}': already exists locally"
                 [AStr (path_join (local_dir session) (fi_filename f))]).
    destruct (IH (emit ev w)) as (w' & evs & E & Hfs & Hg & Hl & Hlog & Hquiet).
    { intros g Hg. apply Hsync. by right. }
    exists w', (ev :: evs). split; [|split; [|split; [|split; [|split]]]]; try done.
    + simpl. erewrite bind_Ok; [exact E|]. by eapply sync_remote_file_same_size.
    + rewrite Hlog. simpl. by rewrite <- app_assoc.
    + by constructor.
Qed.

(** X3. [down_by_all] over a card whose every listed file is already in the
    local directory at its remote size lists the card once, returns
    normally, changes no local file and makes no transport or device call. *)
Theorem down_by_all_in_sync (env : Env) (session : Session) (w : World) :
  (∀ f, f ∈ list_files env (list_files_calls w) →
     ∃ content, fs w !! path_join (local_dir session) (fi_filename f) = Some content ∧
                len content = fi_size f) →
  ∃ w' evs, down_by_all env session w = (Ok (), w') ∧
        fs w' = fs w ∧ get_calls w' = get_calls w ∧
        list_files_calls w' = S (list_files_calls w) ∧
        log w' = log w ++ evs ∧ Forall (λ ev, device_event ev = false) evs.
Proof.
  intros Hsync.
  destruct (down_by_files_in_sync env (list_files env (list_files_calls w)) session
              (tick_list_files w) Hsync) as (w' & evs & E & Hfs & Hg & Hl & Hlog & Hquiet).
  exists w', evs. split; [|repeat split; done].
  unfold down_by_all. erewrite bind_Ok; [exact E|reflexivity].
Qed.

Lemma down_by_all_in_sync_witness :
  ∃ w', down_by_all two_files_env example_session (set_fs synced_fs world0) = (Ok (), w') ∧
        fs w' = synced_fs ∧ get_calls w' = 0%nat.
Proof.
  destruct (down_by_all_in_sync two_files_env example_session (set_fs synced_fs world0))
    as (w' & evs & E & Hfs & Hg & _).
  - intros f Hf. simpl in Hf.
    apply elem_of_cons in Hf as [->|Hf];
      [|apply elem_of_cons in Hf as [->|Hf]; [|by apply elem_of_nil in Hf]].
    + exists (replicate 10 Byte.x00). split; vm_compute; reflexivity.
    + exists (replicate 60 Byte.x00). split; vm_compute; reflexivity.
  - exists w'. split; [exact E|]. split; [exact Hfs|exact Hg].
Defined.

(** X4. A download batch stops at the first file that fails: when the files
    before [f] were handled and [f] raises, [down_by_files] raises that
    error in the world the failure left, so the files after [f] are never
    requested. *)
Theorem down_by_files_stops_at_failure (env : Env) (session : Session)
    (xs ys : list FileInfo) (f : FileInfo) (e : exn) (w w1 w2 : World) :
  down_by_files env xs session w = (Ok (), w1) →
  _sync_remote_file env f session w1 = (Raise e, w2) →
  down_by_files env (xs ++ f :: ys) session w = (Raise e, w2).
Proof.
  intros Hxs Hf. unfold down_by_files in *. rewrite for_each_app, Hxs.
  simpl. by apply bind_Raise.
Qed.

Lemma down_by_files_stops_at_failure_witness :
  (down_by_files broken_stream_env [remote_X; remote_C] example_session world0).1
    = Raise (ConnectionError "reset") ∧
  get_calls (down_by_files broken_stream_env [remote_X; remote_C] example_session world0).2
    = 1%nat.
Proof.
  assert (down_by_files broken_stream_env ([] ++ remote_X :: [remote_C]) example_session
            world0
          = (Raise (ConnectionError "reset"),
             (_sync_remote_file broken_stream_env remote_X example_session world0).2)) as H.
  { apply (down_by_files_stops_at_failure broken_stream_env example_session
             [] [remote_C] remote_X (ConnectionError "reset") world0 world0).
    - reflexivity.
    - vm_compute. reflexivity. }
  simpl app in H. rewrite H. split; vm_compute; reflexivity.
Defined.

(** ** Uploading one file that the card lists *)

(** X5. For a local file that the remote listing contains,
    [_sync_local_file] returns normally when the upload is not interrupted:
    with equal sizes it only logs the skip and makes no device call; with
    different sizes it deletes the remote copy under the path the listing
    gives, then uploads the local path, and makes no other device call. *)
Theorem sync_local_file_listed (env : Env) (f r : FileInfo) (d : gmap string FileInfo)
    (s : Session) (w : World) :
  d !! fi_filename f = Some r →
  upload_file env (upload_calls w) = None →
  ∃ w', _sync_local_file env f (PyDict d) (PySession s) w = (Ok (), w') ∧
        log w' = log w ++
          (if fi_size f =? fi_size r
           then [EvLog INFO "Skipping '{}' already exists on SD card" [AStr (fi_filename f)]]
           else [EvLog WARNING "Removing remote file {}: local size {} != remote size {}"
                   [AStr (fi_filename f); AInt (fi_size f); AInt (fi_size r)];
                 EvDelete (fi_path r) (PySession s);
                 EvLog INFO "Uploading local file {} to {}"
                   [AStr (fi_path f); AStr (remote_dir s)];
                 EvUpload (fi_path f) (PySession s)]).
Proof.
  intros Hd Hup. destruct (fi_size f =? fi_size r) eqn:Hsize.
  - apply Z.eqb_eq in Hsize. eexists.
    split; [by eapply sync_local_file_same_size|reflexivity].
  - apply Z.eqb_neq in Hsize. by eapply sync_local_file_size_differs.
Qed.

Lemma sync_local_file_listed_witness :
  ∃ w', _sync_local_file quiet_env local_C (PyDict {[ "C.JPG" := remote_C ]})
          (PySession example_session) world0 = (Ok (), w') ∧
        log w' =
          [EvLog WARNING "Removing remote file {}: local size {} != remote size {}"
             [AStr "C.JPG"; AInt 80; AInt 60];
           EvDelete "/DCIM/100__TSB/C.JPG" (PySession example_session);
           EvLog INFO "Uploading local file {} to {}"
             [AStr "/home/pics/C.JPG"; AStr "/DCIM/100__TSB"];
           EvUpload "/home/pics/C.JPG" (PySession example_session)].
Proof.
  destruct (sync_local_file_listed quiet_env local_C remote_C {[ "C.JPG" := remote_C ]}
              example_session world0) as (w' & E & Hlog).
  - reflexivity.
  - reflexivity.
  - exists w'. split; [exact E|exact Hlog].
Defined.

(** ** The remote listing of an upload batch *)

Lemma keeps_map_files_raw_calls_sync_local_file env f remote_files session :
  keeps map_files_raw_calls (_sync_local_file env f remote_files session).
Proof.
  unfold _sync_local_file, _stream_from_file, _upload_file_safely.
  repeat keeps_step.
Qed.

Lemma up_by_files_without_listing env to_sync session w :
  up_by_files env to_sync PyNone session w
  = up_by_files env to_sync (PyDict (map_files_raw env (map_files_raw_calls w))) session
      (tick_map_files_raw w).
Proof. reflexivity. Qed.

(** X6. [up_by_files] asks the device for its listing exactly once when it
    is called without one, however many files it is given and whether or
    not it fails, and then behaves as if it had been given that listing;
    called with a listing it never asks. *)
Theorem up_by_files_lists_once (env : Env) (to_sync : list FileInfo)
    (d : gmap string FileInfo) (session : PyObj) (w : World) :
  up_by_files env to_sync PyNone session w
    = up_by_files env to_sync (PyDict (map_files_raw env (map_files_raw_calls w))) session
        (tick_map_files_raw w) ∧
  map_files_raw_calls (up_by_files env to_sync PyNone session w).2
    = S (map_files_raw_calls w) ∧
  map_files_raw_calls (up_by_files env to_sync (PyDict d) session w).2
    = map_files_raw_calls w.
Proof.
  assert (∀ d' w0, map_files_raw_calls (up_by_files env to_sync (PyDict d') session w0).2
                   = map_files_raw_calls w0) as Hgiven.
  { intros d' w0.
    destruct (up_by_files env to_sync (PyDict d') session w0) as [r w'] eqn:E.
    unfold up_by_files in E. erewrite bind_Ok in E; [|reflexivity].
    eapply (keeps_for_each map_files_raw_calls); [|exact E].
    intros x. apply keeps_map_files_raw_calls_sync_local_file. }
  split; [apply up_by_files_without_listing|]. split; [|apply Hgiven].
  rewrite up_by_files_without_listing. by rewrite Hgiven.
Qed.

(** ** [up_by_all] *)

Lemma up_by_files_Ok_listed env (to_sync : list FileInfo) (d : gmap string FileInfo)
    session w w' :
  up_by_files env to_sync (PyDict d) session w = (Ok (), w') →
  ∀ f, f ∈ to_sync → is_Some (d !! fi_filename f).
Proof.
  unfold up_by_files. erewrite bind_Ok; [|reflexivity].
  revert w. induction to_sync as [|x to_sync IH]; intros w E f Hf.
  - by apply elem_of_nil in Hf.
  - simpl in E. unfold_M.
    destruct (_sync_local_file env x (PyDict d) session w) as [[[]|e] w1] eqn:Ex;
      [|discriminate].
    apply elem_of_cons in Hf as [->|Hf]; [|by eapply IH].
    destruct (d !! fi_filename x) eqn:Hd; [done|].
    destruct (sync_local_file_absent env x d session w Hd) as [attr Habs].
    rewrite Habs in Ex. discriminate.
Qed.

(** X7. [up_by_all] returns normally only if every file it selected from
    the local listing is already in the device's listing: a file that the
    card does not have makes it raise, so it never puts a new file on the
    card. *)
Theorem up_by_all_only_listed (env : Env) (session : Session) (count : option Z)
    (l : list FileInfo) (w w' : World) :
  list_local_files env session w = (Ok l, tick_scandir w) →
  up_by_all env session count w = (Ok (), w') →
  ∀ f, f ∈ (match count with Some c => py_slice_last c l | None => l end) →
       is_Some (map_files_raw env (map_files_raw_calls w) !! fi_filename f).
Proof.
  intros Hl Hup. unfold up_by_all in Hup.
  erewrite bind_Ok in Hup; [|exact Hl].
  rewrite up_by_files_without_listing in Hup. by eapply up_by_files_Ok_listed.
Qed.

Lemma up_by_all_only_listed_witness :
  (up_by_all two_files_env example_session (Some 1) world0).1 = Ok () ∧
  is_Some (map_files_raw two_files_env 0 !! fi_filename local_C).
Proof.
  split; [vm_compute; reflexivity|].
  apply (up_by_all_only_listed two_files_env example_session (Some 1)
           [local_A; local_C] world0
           (up_by_all two_files_env example_session (Some 1) world0).2).
  - reflexivity.
  - vm_compute. reflexivity.
  - vm_compute. left.
Defined.

Lemma py_slice_last_all {A} (count : Z) (l : list A) :
  count = 0 ∨ len l ≤ count → py_slice_last count l = l.
Proof.
  unfold py_slice_last, len. intros [->|Hc]; [done|].
  destruct (0 <? count) eqn:Hpos.
  - replace (Z.max (Z.of_nat (length l) - count) 0) with 0 by lia. done.
  - apply Z.ltb_ge in Hpos. assert (length l = 0%nat) as Hnil by lia.
    apply nil_length_inv in Hnil. subst. by rewrite drop_nil.
Qed.

Lemma py_slice_last_positive {A} (count : Z) (l : list A) :
  0 < count → py_slice_last count l = drop (length l - Z.to_nat count) l.
Proof.
  unfold py_slice_last, len. intros Hc.
  apply Z.ltb_lt in Hc as Hb. rewrite Hb. f_equal. lia.
Qed.

(** X8. A [count] of 0 does not select nothing: [files[-0:]] is the whole
    list, so [up_by_all(count=0)] behaves exactly as [up_by_all()] without a
    count, and so does any [count] that is at least the number of local
    files. *)
Theorem up_by_all_count_zero_is_all (env : Env) (session : Session) (count : Z)
    (l : list FileInfo) (w : World) :
  list_local_files env session w = (Ok l, tick_scandir w) →
  count = 0 ∨ len l ≤ count →
  up_by_all env session (Some count) w = up_by_all env session None w.
Proof.
  intros Hl Hc. unfold up_by_all.
  erewrite !bind_Ok; [|exact Hl|exact Hl]. by rewrite py_slice_last_all.
Qed.

Lemma up_by_all_count_zero_is_all_witness :
  up_by_all two_files_env example_session (Some 0) world0
  = up_by_all two_files_env example_session None world0.
Proof.
  apply (up_by_all_count_zero_is_all two_files_env example_session 0
           [local_A; local_C] world0).
  - reflexivity.
  - by left.
Defined.

(** ** Up-only mode never reaches the device *)

Lemma up_by_files_on_directory_name_runs env (a : list FileInfo) d s r tevs :
  a ≠ [] →
  runs (up_by_files env a (PyStr d) (PySession s)) r tevs →
  tevs = [] ∧ ∃ e, r = Raise e.
Proof.
  intros Ha (w1 & w2 & E & Hlog). destruct a as [|f rest]; [done|].
  destruct (up_by_files_on_directory_name env f rest d s w1) as [e He].
  rewrite He in E. injection E as <- <-. split; [|by exists e].
  by apply (app_inv_head (log w1)); rewrite app_nil_r.
Qed.

Lemma up_steps_no_device_event env session a evs :
  up_steps env session a evs → Forall (λ ev, device_event ev = false) evs.
Proof.
  induction 1 as [a|a' evs _ IH|a tevs n a' evs Ha Hruns _ IH|a tevs e Ha Hruns].
  - constructor.
  - by constructor.
  - apply up_by_files_on_directory_name_runs in Hruns as [_ [e He]]; [done|done].
  - apply up_by_files_on_directory_name_runs in Hruns as [-> _]; [|done].
    by repeat constructor.
Qed.

(** X9. With [session.remote_dir] a string, up-only mode never reaches the
    device: [up_by_arrival] passes the directory name where [up_by_files]
    expects the remote listing, so in a run of any length no upload, delete
    or transport call is made, and the [next] that follows the yield of a
    non-empty arrival set raises. *)
Theorem up_by_arrival_never_uploads (env : Env) (session : Session) :
  (∀ (n : nat) w, ∃ evs,
     log (drive (up_by_arrival env session) n Up_start w).2 = log w ++ evs ∧
     Forall (λ ev, device_event ev = false) evs) ∧
  (∀ f a file_set mon w, ∃ e w',
     up_by_arrival env session (Up_yielded (f :: a) file_set mon) w = (Raise e, w') ∧
     upload_calls w' = upload_calls w).
Proof.
  split.
  - intros [|n] w.
    { exists []. split; [by rewrite app_nil_r|constructor]. }
    destruct (watch_local_files_total env session Watch_start w)
      as (a0 & s0 & mon0 & w1 & E0 & Hl0).
    set (w2 := emit (ready_event (len s0) (local_dir session) (remote_dir session)) w1).
    destruct (up_by_arrival_loop_total env session mon0 w2)
      as (a & s & mon & w3 & E & Hl).
    destruct (up_by_arrival_steps env session n a s mon (emit (EvYield up a) w3))
      as (evs & Hlog & Hsteps).
    exists (ready_event (len s0) (local_dir session) (remote_dir session) ::
            EvYield up a :: evs).
    split.
    + cbn [drive up_by_arrival]. erewrite bind_Ok.
      2:{ erewrite bind_Ok; [|exact E0]. cbv beta iota.
          erewrite bind_Ok; [|reflexivity]. exact E. }
      cbv beta iota. erewrite bind_Ok; [|reflexivity].
      etrans; [exact Hlog|]. simpl. rewrite Hl. simpl. rewrite Hl0.
      rewrite <- !app_assoc. reflexivity.
    + repeat constructor. by eapply up_steps_no_device_event.
  - intros f a file_set mon w.
    destruct (up_by_files_on_directory_name env f a (remote_dir session)
                (default_session env) (emit (notify_event up (f :: a)) w)) as [e He].
    exists e. eexists. split.
    + cbn [up_by_arrival truthy]. apply bind_Raise.
      erewrite bind_Ok; [|reflexivity]. apply bind_Raise. exact He.
    + reflexivity.
Qed.

(** ** Bidirectional mode: the processed set *)

Lemma names_of_not_processed eqb processed l :
  names_of (not_processed eqb processed l) ## processed.
Proof.
  intros name Hin Hp. unfold names_of in Hin.
  apply elem_of_list_to_set, list_elem_of_In, in_map_iff in Hin as (f & <- & Hf).
  apply list_elem_of_In, not_processed_spec in Hf as [_ Hf]. done.
Qed.

Lemma processed_update_names processed a :
  processed_update processed a = processed ∪ names_of a.
Proof. reflexivity. Qed.

Lemma up_down_by_arrival_loop_inv env session processed lm rm w d a st' w'
    (U D : gset string) :
  U ⊆ processed → D ⊆ processed → U ## D →
  up_down_by_arrival_loop env session processed lm rm w = (Ok ((d, a), st'), w') →
  processed_inv st' (U ∪ step_names up (d, a)) (D ∪ step_names down (d, a)).
Proof.
  intros HU HD HUD E.
  destruct (up_down_by_arrival_loop_total env session processed lm rm w)
    as (la & ls & nr & rs & lm' & rm' & w1 & E1 & _).
  rewrite E1 in E. injection E as <- <- <- <-.
  unfold up_down_by_arrival_loop in E1. unfold_M.
  destruct (watch_local_files env session lm w) as [[[[nl ls0] lm0]|e] w0]; [|done].
  destruct (watch_remote_files env session rm w0) as [[[[nr0 rs0] rm0]|e] w00]; [|done].
  simplify_eq.
  pose proof (names_of_not_processed SimpleFileInfo_eqb processed nl) as Hdisj.
  unfold step_names. simpl. repeat case_decide; try done.
  simpl. set_solver.
Qed.

Lemma up_down_by_arrival_inv env session st w d a st' w' (U D : gset string) :
  processed_inv st U D →
  up_down_by_arrival env session st w = (Ok ((d, a), st'), w') →
  processed_inv st' (U ∪ step_names up (d, a)) (D ∪ step_names down (d, a)).
Proof.
  intros Hinv E.
  destruct st as [|la ls nr rs processed lm rm|ra rs processed lm rm|ra rs processed lm rm].
  - (* start *)
    destruct Hinv as [-> ->]. cbn [up_down_by_arrival] in E. unfold_M.
    destruct (watch_local_files env session Watch_start w) as [[[[? ?] lm]|e] w0]; [|done].
    destruct (watch_remote_files env session Watch_start w0) as [[[[? ?] rm]|e] w1];
      [|done].
    simpl in E. eapply up_down_by_arrival_loop_inv in E; [exact E|done..].
  - (* after the yield for upload *)
    destruct Hinv as (HU & HD & HUD & Hla).
    cbn [up_down_by_arrival] in E. unfold_M.
    pose proof (names_of_not_processed FileInfo_eqb processed nr) as Hsame.
    pose proof (names_of_not_processed FileInfo_eqb
                  (processed ∪ names_of la) nr) as Hupd.
    destruct la as [|f la].
    + simpl in E. injection E as <- <- <- <-.
      change (names_of []) with (∅ : gset string) in *.
      unfold step_names. simpl. repeat case_decide; try done.
      simpl. set_solver.
    + simpl in E.
      destruct (up_by_files env (f :: la) (PyStr (remote_dir session))
                  (PySession (default_session env)) _) as [[[]|e] w1]; [|done].
      simpl in E. injection E as <- <- <- <-.
      rewrite processed_update_names in *.
      unfold step_names. simpl. repeat case_decide; try done.
      simpl. set_solver.
  - (* after the first yield for download *)
    destruct Hinv as (HU & HD & HUD & Hra).
    cbn [up_down_by_arrival] in E. destruct ra as [|f ra].
    + simpl in E. change (names_of []) with (∅ : gset string) in *.
      eapply up_down_by_arrival_loop_inv in E; [exact E|..]; try done.
      set_solver.
    + simpl in E. unfold_M. simpl in E. injection E as <- <- <- <-.
      rewrite processed_update_names.
      unfold step_names. simpl. repeat case_decide; try done.
      simpl. set_solver.
  - (* after the second yield for download *)
    destruct Hinv as (HU & HD & HUD).
    cbn [up_down_by_arrival] in E. unfold_M.
    destruct (down_by_files env ra session w) as [[[]|e] w1]; [|done].
    simpl in E. eapply up_down_by_arrival_loop_inv in E; [exact E|done..].
Qed.

Lemma processed_inv_disjoint st (U D : gset string) : processed_inv st U D → U ## D.
Proof. destruct st; simpl; [intros [-> ->]; set_solver|tauto..]. Qed.

Lemma elem_of_yielded_names_cons direction (step : Step) steps name :
  name ∈ yielded_names direction (step :: steps) ↔
  name ∈ step_names direction step ∨ name ∈ yielded_names direction steps.
Proof.
  unfold yielded_names, step_names. simpl. rewrite elem_of_app.
  case_decide; [|set_solver]. unfold names_of. by rewrite elem_of_list_to_set.
Qed.

Lemma yields_one_direction env session (n : nat) :
  ∀ st w (U D : gset string) name,
    processed_inv st U D →
    name ∈ U ∨ name ∈ yielded_names up (yields (up_down_by_arrival env session) n st w) →
    ¬ (name ∈ D ∨
       name ∈ yielded_names down (yields (up_down_by_arrival env session) n st w)).
Proof.
  induction n as [|n IH]; intros st w U D name Hinv HU HD.
  - apply processed_inv_disjoint in Hinv. simpl in *.
    destruct HU as [HU|HU]; [|by apply elem_of_nil in HU].
    destruct HD as [HD|HD]; [|by apply elem_of_nil in HD].
    set_solver.
  - cbn [yields] in *.
    destruct (up_down_by_arrival env session st w) as [[[[d a] st']|e] w'] eqn:E.
    + eapply (IH st' (emit (EvYield d a) w')
                (U ∪ step_names up (d, a)) (D ∪ step_names down (d, a)) name).
      * by eapply up_down_by_arrival_inv.
      * rewrite elem_of_yielded_names_cons in HU. set_solver.
      * rewrite elem_of_yielded_names_cons in HD. set_solver.
    + apply processed_inv_disjoint in Hinv.
      destruct HU as [HU|HU]; [|by apply elem_of_nil in HU].
      destruct HD as [HD|HD]; [|by apply elem_of_nil in HD].
      set_solver.
Qed.

(** X10. In a run of [up_down_by_arrival] of any length no filename is
    yielded in both directions: a name that was yielded for upload is never
    yielded for download, on the same tick or later, and the other way
    round. *)
Theorem up_down_by_arrival_one_direction (env : Env) (session : Session) (n : nat)
    (w : World) (name : string) :
  name ∈ yielded_names up (yields (up_down_by_arrival env session) n UpDown_start w) →
  name ∉ yielded_names down (yields (up_down_by_arrival env session) n UpDown_start w).
Proof.
  intros HU HD.
  eapply (yields_one_direction env session n UpDown_start w ∅ ∅ name); [done|auto..].
Qed.

(** X.JPG is downloaded on the first tick and then shows up in the local
    listing together with a new A.JPG: only A.JPG is yielded for upload. *)
Example up_down_by_arrival_round_trip :
  yields (up_down_by_arrival round_trip_env example_session) 4 UpDown_start world0
  = [(up, []); (down, [remote_X]); (down, [remote_X]); (up, [local_A])].
Proof. vm_compute. reflexivity. Qed.

Lemma up_down_by_arrival_one_direction_witness :
  "A.JPG" ∈ yielded_names up
    (yields (up_down_by_arrival round_trip_env example_session) 4 UpDown_start world0) ∧
  "A.JPG" ∉ yielded_names down
    (yields (up_down_by_arrival round_trip_env example_session) 4 UpDown_start world0).
Proof.
  assert ("A.JPG" ∈ yielded_names up
            (yields (up_down_by_arrival round_trip_env example_session) 4
               UpDown_start world0)) as H.
  { vm_compute. left. }
  split; [exact H|].
  exact (up_down_by_arrival_one_direction round_trip_env example_session 4 world0
           "A.JPG" H).
Defined.

(** ** Removals *)

(** X11. Removals are never reported: when every record of the fresh
    listing was already in the previous snapshot, the local watcher yields
    an empty arrival set, and the snapshot it keeps is the fresh one, so the
    records that disappeared are forgotten. *)
Theorem watch_local_files_removals_silent (env : Env) (session : Session)
    (old_files new_files l : list FileInfo) (w : World) :
  list_local_files env session w = (Ok l, tick_scandir w) →
  (∀ f, f ∈ l → f ∈ new_files) →
  watch_local_files env session (Watch_yielded old_files new_files) w
  = (Ok ([], py_set SimpleFileInfo_eqb l,
         Watch_yielded new_files (py_set SimpleFileInfo_eqb l)), tick_scandir w).
Proof.
  intros Hl Hsub. cbn [watch_local_files]. erewrite bind_Ok; [|exact Hl].
  rewrite set_difference_covered; [done|].
  intros x Hx%py_set_subseteq. exists x. split; [auto|apply SimpleFileInfo_eqb_refl].
Qed.

Lemma watch_local_files_removals_silent_witness :
  watch_local_files two_files_env example_session
    (Watch_yielded [] [local_A; local_X_copy; local_C]) world0
  = (Ok ([], [local_A; local_C], Watch_yielded [local_A; local_X_copy; local_C]
                                    [local_A; local_C]), tick_scandir world0).
Proof.
  apply (watch_local_files_removals_silent two_files_env example_session []
           [local_A; local_X_copy; local_C] [local_A; local_C] world0).
  - reflexivity.
  - intros f Hf. apply elem_of_cons in Hf as [->|Hf]; [set_solver|].
    apply elem_of_cons in Hf as [->|Hf]; [set_solver|by apply elem_of_nil in Hf].
Defined.

(** ** Each direction keeps to its side *)

Lemma log_adds_ret {A} P (a : A) : log_adds P (mret a).
Proof. intros w r w' [= <- <-]. exists []. by rewrite app_nil_r. Qed.

Lemma log_adds_raise {A} P (e : exn) : log_adds P (raise e : M A).
Proof. intros w r w' [= <- <-]. exists []. by rewrite app_nil_r. Qed.

Lemma log_adds_lift {A} P (x : Result A) : log_adds P (lift x).
Proof. intros w r w' [= <- <-]. exists []. by rewrite app_nil_r. Qed.

Lemma log_adds_get_world P : log_adds P get_world.
Proof. intros w r w' [= <- <-]. exists []. by rewrite app_nil_r. Qed.

Lemma log_adds_bind {A B} P (m : M A) (f : A → M B) :
  log_adds P m → (∀ a, log_adds P (f a)) → log_adds P (m ≫= f).
Proof.
  intros Hm Hf w r w' E. unfold_M.
  destruct (m w) as [[a|e] w1] eqn:Em.
  - destruct (Hm _ _ _ Em) as (evs1 & H1 & HP1).
    destruct (Hf a _ _ _ E) as (evs2 & H2 & HP2).
    exists (evs1 ++ evs2). split; [by rewrite H2, H1, app_assoc|by apply Forall_app].
  - injection E as <- <-. by eapply Hm.
Qed.

Lemma log_adds_try_except {A} P (m : M A) (h : exn → M A) :
  log_adds P m → (∀ e, log_adds P (h e)) → log_adds P (try_except m h).
Proof.
  intros Hm Hh w r w' E. unfold try_except in E.
  destruct (m w) as [[a|e] w1] eqn:Em.
  - injection E as <- <-. by eapply Hm.
  - destruct (Hm _ _ _ Em) as (evs1 & H1 & HP1).
    destruct (Hh e _ _ _ E) as (evs2 & H2 & HP2).
    exists (evs1 ++ evs2). split; [by rewrite H2, H1, app_assoc|by apply Forall_app].
Qed.

Lemma log_adds_for_each {A} P (xs : list A) (body : A → M unit) :
  (∀ x, log_adds P (body x)) → log_adds P (for_each xs body).
Proof.
  intros Hbody. induction xs as [|x xs IH]; simpl.
  - apply log_adds_ret.
  - apply log_adds_bind; auto.
Qed.

Ltac log_adds_primitive :=
  let E := fresh "E" in
  intros ? ? ? E;
  unfold effect, logger, os_remove, open_wb, file_write, pbar_update_call,
    requests_get_call, upload_upload_file, upload_delete_file, effect,
    command_map_files_raw in E;
  repeat case_match; simplify_eq;
  first [ by exists []; rewrite app_nil_r
        | eexists [_]; split; [reflexivity|repeat constructor] ].

Ltac log_adds_step :=
  first
    [ apply log_adds_ret | apply log_adds_raise | apply log_adds_lift
    | apply log_adds_get_world
    | apply log_adds_bind; [|intros ?]
    | apply log_adds_try_except; [|intros ?]
    | apply log_adds_for_each; intros ?
    | match goal with
      | |- log_adds _ (if ?b then _ else _) => destruct b
      | |- log_adds _ (match ?x with _ => _ end) => destruct x
      end
    | log_adds_primitive ].

Lemma log_adds_down_by_files env to_sync session :
  log_adds (λ ev, changes_card ev = false) (down_by_files env to_sync session).
Proof.
  unfold down_by_files, _sync_remote_file, _stream_to_file, _get_file,
    _write_file_safely, _write_file, for_each_chunk, _update_pbar,
    try_except_Exception.
  repeat log_adds_step.
Qed.

Lemma log_adds_up_by_files env to_sync remote_files session :
  log_adds (λ ev, local_effect ev = false) (up_by_files env to_sync remote_files session).
Proof.
  unfold up_by_files, _sync_local_file, _stream_from_file, _upload_file_safely.
  repeat log_adds_step.
Qed.

(** X12. Each direction keeps to its side.  A download batch never uploads
    to the card nor deletes on it; an upload batch never changes a local
    file and never opens a transport request. *)
Theorem directions_keep_to_their_side (env : Env) (to_sync : list FileInfo)
    (session : Session) (remote_files : PyObj) (w : World) :
  (upload_calls (down_by_files env to_sync session w).2 = upload_calls w ∧
   ∃ evs, log (down_by_files env to_sync session w).2 = log w ++ evs ∧
          Forall (λ ev, changes_card ev = false) evs) ∧
  (fs (up_by_files env to_sync remote_files (PySession session) w).2 = fs w ∧
   get_calls (up_by_files env to_sync remote_files (PySession session) w).2 = get_calls w ∧
   ∃ evs, log (up_by_files env to_sync remote_files (PySession session) w).2
            = log w ++ evs ∧
          Forall (λ ev, local_effect ev = false) evs).
Proof.
  split.
  - destruct (down_by_files env to_sync session w) as [r w'] eqn:E. simpl.
    split; [by eapply keeps_upload_calls_down_by_files|].
    by eapply log_adds_down_by_files.
  - destruct (up_by_files env to_sync remote_files (PySession session) w) as [r w'] eqn:E.
    simpl. split; [by eapply keeps_fs_up_by_files|].
    split; [by eapply keeps_get_calls_up_by_files|].
    by eapply log_adds_up_by_files.
Qed.

(** ** Sorting *)

Lemma string_compare_lt_trans (a b c : string) :
  String.compare a b = Lt → String.compare b c = Lt → String.compare a c = Lt.
Proof.
  revert b c. induction a as [|x a IH]; intros [|y b] [|z c]; simpl; try done.
  unfold Ascii.compare.
  destruct (N.compare_spec (N_of_ascii x) (N_of_ascii y)) as [Hxy|Hxy|Hxy];
    destruct (N.compare_spec (N_of_ascii y) (N_of_ascii z)) as [Hyz|Hyz|Hyz];
    try done; intros H1 H2.
  - rewrite Hxy, Hyz, N.compare_refl. eauto.
  - rewrite Hxy. by apply N.compare_lt_iff in Hyz as ->.
  - rewrite <- Hyz. by apply N.compare_lt_iff in Hxy as ->.
  - assert (N_of_ascii x < N_of_ascii z)%N as Hxz by (by etrans).
    by apply N.compare_lt_iff in Hxz as ->.
Qed.

Lemma string_ltb_false (a b : string) :
  String.ltb b a = false ↔ String.compare a b ≠ Gt.
Proof.
  unfold String.ltb. rewrite (String.compare_antisym a b).
  destruct (String.compare b a); simpl; split; (done || congruence).
Qed.

Lemma string_le_trans (a b c : string) :
  String.ltb b a = false → String.ltb c b = false → String.ltb c a = false.
Proof.
  rewrite !string_ltb_false.
  destruct (String.compare a b) eqn:Hab; [| |done]; intros _.
  - apply String.compare_eq_iff in Hab as ->. done.
  - destruct (String.compare b c) eqn:Hbc; [| |done]; intros _.
    + apply String.compare_eq_iff in Hbc as <-. by rewrite Hab.
    + by rewrite (string_compare_lt_trans a b c).
Qed.

Lemma string_ltb_asym (a b : string) :
  String.ltb a b = true → String.ltb b a = false.
Proof.
  unfold String.ltb. rewrite (String.compare_antisym b a).
  by destruct (String.compare a b).
Qed.

Section PySorted.
Context {A K : Type} (ltb : K → K → bool) (key : A → K).
Context (ltb_asym : ∀ a b, ltb a b = true → ltb b a = false).
Context (le_trans : ∀ a b c, ltb b a = false → ltb c b = false → ltb c a = false).

Let le (x y : A) : Prop := ltb (key y) (key x) = false.

Lemma py_sorted_insert_perm (x : A) (l : list A) :
  py_sorted_insert ltb key x l ≡ₚ x :: l.
Proof.
  induction l as [|y l IH]; simpl; [done|].
  destruct (ltb (key y) (key x)); [|done].
  rewrite IH. apply Permutation_swap.
Qed.

Lemma py_sorted_perm (l : list A) : py_sorted ltb key l ≡ₚ l.
Proof.
  induction l as [|x l IH]; simpl; [done|].
  fold (py_sorted ltb key l). by rewrite py_sorted_insert_perm, IH.
Qed.

Lemma py_sorted_insert_sorted (x : A) (l : list A) :
  Sorted.StronglySorted le l → Sorted.StronglySorted le (py_sorted_insert ltb key x l).
Proof.
  induction 1 as [|y l Hl IH Hy]; simpl.
  - by repeat constructor.
  - destruct (ltb (key y) (key x)) eqn:Hyx.
    + constructor; [done|].
      rewrite py_sorted_insert_perm. constructor; [|done].
      by apply ltb_asym.
    + constructor; [by constructor|]. constructor; [done|].
      eapply Forall_impl; [exact Hy|]. intros z Hz. by eapply le_trans.
Qed.

Lemma py_sorted_sorted (l : list A) : Sorted.StronglySorted le (py_sorted ltb key l).
Proof.
  induction l as [|x l IH]; simpl; [constructor|].
  by apply py_sorted_insert_sorted.
Qed.
End PySorted.

Lemma StronglySorted_app_le {A} (R : A → A → Prop) (l1 l2 : list A) :
  Sorted.StronglySorted R (l1 ++ l2) →
  Sorted.StronglySorted R l2 ∧ ∀ x y, x ∈ l1 → y ∈ l2 → R x y.
Proof.
  induction l1 as [|z l1 IH]; simpl; intros Hs.
  - split; [done|]. intros x y Hx. by apply elem_of_nil in Hx.
  - apply Sorted.StronglySorted_inv in Hs as [Hs Hz]. destruct (IH Hs) as [Hl2 Hle].
    split; [done|]. intros x y Hx Hy.
    apply elem_of_cons in Hx as [->|Hx]; [|auto].
    rewrite Forall_forall in Hz. apply Hz. apply elem_of_app. by right.
Qed.

(** ** [down_by_name] *)

Lemma py_slice_last_length {A} (count : Z) (l : list A) :
  0 ≤ count →
  length (py_slice_last count l)
  = if count =? 0 then length l else Nat.min (Z.to_nat count) (length l).
Proof.
  intros Hc. destruct (count =? 0) eqn:H0.
  - apply Z.eqb_eq in H0. by rewrite py_slice_last_all; [|left].
  - apply Z.eqb_neq in H0. rewrite py_slice_last_positive by lia.
    rewrite length_drop. lia.
Qed.

Lemma py_slice_last_suffix {A} (count : Z) (l : list A) :
  ∃ k : nat, py_slice_last count l = drop k l.
Proof. unfold py_slice_last. destruct (0 <? count); eauto. Qed.

(** X13. [down_by_name] downloads the files with the greatest names, the
    greatest first: the batch handed to [down_by_files] is the reverse of a
    list that is sorted by filename, that holds [count] files of the remote
    listing (all of them if there are fewer, and all of them if [count] is
    0), and whose names are not below any name left out. *)
Theorem down_by_name_greatest_first (env : Env) (session : Session) (count : Z)
    (w : World) :
  0 ≤ count →
  ∃ rest to_sync,
    down_by_name env session count w
    = (_ ← _notify_sync down to_sync; down_by_files env (rev to_sync) session)
        (tick_list_files w) ∧
    rest ++ to_sync ≡ₚ list_files env (list_files_calls w) ∧
    length to_sync
    = (if count =? 0 then length (list_files env (list_files_calls w))
       else Nat.min (Z.to_nat count) (length (list_files env (list_files_calls w)))) ∧
    Sorted.StronglySorted name_le to_sync ∧
    ∀ g f, g ∈ rest → f ∈ to_sync → name_le g f.
Proof.
  intros Hc.
  set (files := list_files env (list_files_calls w)).
  set (greatest := py_sorted String.ltb fi_filename files).
  destruct (py_slice_last_suffix count greatest) as [k Hk].
  pose proof (py_sorted_perm String.ltb fi_filename files) as Hperm.
  pose proof (py_sorted_sorted String.ltb fi_filename string_ltb_asym string_le_trans files)
    as Hsorted.
  fold greatest in Hperm, Hsorted.
  rewrite <- (take_drop k greatest) in Hsorted.
  apply StronglySorted_app_le in Hsorted as [Hsorted Hle].
  exists (take k greatest), (py_slice_last count greatest).
  split; [reflexivity|]. rewrite Hk. split; [by rewrite take_drop|].
  split; [|split; [exact Hsorted|exact Hle]].
  rewrite <- Hk, py_slice_last_length by done.
  by rewrite (Permutation_length Hperm).
Qed.

Lemma down_by_name_greatest_first_witness :
  ∃ rest to_sync,
    down_by_name two_files_env example_session 1 world0
    = (_ ← _notify_sync down to_sync; down_by_files two_files_env (rev to_sync)
                                        example_session) (tick_list_files world0) ∧
    rest ++ to_sync ≡ₚ [remote_X; remote_C] ∧
    length to_sync = 1%nat ∧
    Sorted.StronglySorted name_le to_sync ∧
    ∀ g f, g ∈ rest → f ∈ to_sync → name_le g f.
Proof.
  apply (down_by_name_greatest_first two_files_env example_session 1 world0). lia.
Defined.

(** With a count of 1 the card's two files are sorted, and X.JPG alone is
    requested. *)
Example down_by_name_one :
  filter (λ ev, device_event ev = true)
    (log (down_by_name two_files_env example_session 1 world0).2)
  = [EvGet "http://flashair/DCIM/100__TSB/X.JPG"].
Proof. vm_compute. reflexivity. Qed.

(** * Properties of config.py *)

(** ** The processors *)

Lemma config_assert_Ok (cond : bool) : config.assert cond = Ok () ↔ cond = true.
Proof. destruct cond; simpl; split; (done || discriminate). Qed.

Lemma config_assert_cases (cond : bool) :
  (cond = true ∧ config.assert cond = Ok ()) ∨
  (cond = false ∧ config.assert cond = Raise AssertionError).
Proof. destruct cond; auto. Qed.

Lemma upper_ascii_idemp (c : ascii) :
  config.upper_ascii (config.upper_ascii c) = config.upper_ascii c.
Proof. destruct c as [[] [] [] [] [] [] [] []]; reflexivity. Qed.

Lemma upper_ascii_hex (c : ascii) :
  config.char_in (config.upper_ascii c) "0123456789ABCDEF" = config.is_hex_digit c.
Proof. destruct c as [[] [] [] [] [] [] [] []]; reflexivity. Qed.

Lemma upper_idemp (s : string) : config.upper (config.upper s) = config.upper s.
Proof. induction s as [|c s IH]; simpl; [done|]. by rewrite upper_ascii_idemp, IH. Qed.

Lemma upper_chars (s : string) :
  list_ascii_of_string (config.upper s)
  = List.map config.upper_ascii (list_ascii_of_string s).
Proof. induction s as [|c s IH]; simpl; [done|]. by rewrite IH. Qed.

Lemma upper_valid (s : string) :
  forallb (λ c, config.char_in c "0123456789ABCDEF") (list_ascii_of_string (config.upper s))
  = forallb config.is_hex_digit (list_ascii_of_string s).
Proof.
  rewrite upper_chars. induction (list_ascii_of_string s) as [|c l IH]; [done|].
  cbn [List.map forallb]. by rewrite upper_ascii_hex, IH.
Qed.

Lemma upper_keeps_hex (l : list ascii) :
  forallb config.is_hex_digit l = true →
  forallb config.is_hex_digit (List.map config.upper_ascii l) = true.
Proof.
  induction l as [|x l IH]; [done|]. cbn [List.map forallb].
  rewrite !andb_true_iff. intros [Hx Hl]. split; [|auto].
  revert Hx. destruct x as [[] [] [] [] [] [] [] []]; vm_compute; done.
Qed.

(** X14. [mastercode] accepts exactly the strings of 12 hexadecimal digits,
    in either case, and returns them in upper case; every other string
    fails its assertion.  What it returns it accepts again unchanged. *)
Theorem mastercode_accepts_12_hex_digits (code c : string) :
  (config.mastercode code = Ok c ↔
   length (list_ascii_of_string code) = 12%nat ∧
   forallb config.is_hex_digit (list_ascii_of_string code) = true ∧
   c = config.upper code) ∧
  (config.mastercode code = Ok c → config.mastercode c = Ok c) ∧
  (config.mastercode code = Ok (config.upper code) ∨
   config.mastercode code = Raise AssertionError).
Proof.
  assert (∀ s r, config.mastercode s = Ok r ↔
            length (list_ascii_of_string s) = 12%nat ∧
            forallb config.is_hex_digit (list_ascii_of_string s) = true ∧
            r = config.upper s) as Hiff.
  { intros s r. unfold config.mastercode, len.
    destruct (config_assert_cases (Z.of_nat (length (list_ascii_of_string s)) =? 12))
      as [[Hlen ->]|[Hlen ->]]; simpl.
    - apply Z.eqb_eq in Hlen. rewrite upper_valid.
      destruct (forallb config.is_hex_digit (list_ascii_of_string s)); simpl.
      + split; [intros [= <-]; split; [lia|done]|by intros (_ & _ & ->)].
      + split; [discriminate|by intros (_ & ? & _)].
    - apply Z.eqb_neq in Hlen. split; [discriminate|]. intros (Hl & _). lia. }
  split; [apply Hiff|]. split.
  - intros (Hlen & Hhex & ->)%Hiff. apply Hiff.
    rewrite upper_idemp, upper_chars, length_map. split; [done|]. split; [|done].
    by apply upper_keeps_hex.
  - unfold config.mastercode, len.
    destruct (config_assert_cases (Z.of_nat (length (list_ascii_of_string code)) =? 12))
      as [[_ ->]|[_ ->]]; simpl; [|by right].
    destruct (config_assert_cases
                (forallb (λ c0, config.char_in c0 "0123456789ABCDEF")
                   (list_ascii_of_string (config.upper code)))) as [[_ ->]|[_ ->]];
      simpl; auto.
Qed.

(** X15. The accepted ranges of the two numeric processors, read on their
    argument: [timezone] accepts the whole hours from -12 to 9 and returns
    four times the offset; [timeout] accepts the whole seconds from 60 to
    4294967 and returns the milliseconds; outside the range both fail their
    assertion. *)
Theorem numeric_processors_ranges (n v : Z) :
  (config.timezone n = Ok v ↔ -12 ≤ n ≤ 9 ∧ v = n * 4) ∧
  (config.timeout n = Ok v ↔ 60 ≤ n ≤ 4294967 ∧ v = n * 1000) ∧
  (config.timezone n = Ok (n * 4) ∨ config.timezone n = Raise AssertionError) ∧
  (config.timeout n = Ok (n * 1000) ∨ config.timeout n = Raise AssertionError).
Proof.
  unfold config.timezone, config.timeout.
  destruct (config_assert_cases ((-48 <=? n * 4) && (n * 4 <=? 36)))
    as [[Hz ->]|[Hz ->]];
    destruct (config_assert_cases ((60000 <=? n * 1000) && (n * 1000 <=? 4294967294)))
      as [[Ht ->]|[Ht ->]]; simpl;
    rewrite ?andb_true_iff, ?andb_false_iff, ?Z.leb_le, ?Z.leb_gt in Hz, Ht;
    (split; [|split; [|split]]); auto;
    (split; [first [intros [= <-]; lia | discriminate] | intros [? ->]; first [done | lia]]).
Qed.

(** ** [config] *)

Lemma Param_value_inj (p q : config.Param.t) :
  config.Param.value p = config.Param.value q → p = q.
Proof. destruct p, q; simpl; intros H; (reflexivity || discriminate). Qed.


Lemma dict_set_elem (d : list config.Setting) (item x : config.Setting) :
  NoDup (List.map config.param_of d) →
  x ∈ config.dict_set d item ↔
  x = item ∨ (x ∈ d ∧ config.param_of x ≠ config.param_of item).
Proof.
  induction d as [|y d IH]; simpl; intros Hnd.
  - rewrite list_elem_of_singleton. split; [auto|]. intros [->|[H _]]; [done|].
    by apply elem_of_nil in H.
  - apply NoDup_cons in Hnd as [Hy Hnd]. case_decide as Hp.
    + rewrite !elem_of_cons. split.
      * intros [->|Hx]; [auto|]. right. split; [auto|]. intros Hxp.
        apply Hy. rewrite Hp, <- Hxp. apply list_elem_of_In, in_map, list_elem_of_In, Hx.
      * intros [->|[[->|Hx] Hne]]; auto. done.
    + rewrite !elem_of_cons, IH by done. split.
      * intros [->|[->|[Hx Hne]]]; auto.
      * intros [->|[[->|Hx] Hne]]; auto.
Qed.

Lemma dict_set_params (d : list config.Setting) (item : config.Setting) :
  NoDup (List.map config.param_of d) →
  NoDup (List.map config.param_of (config.dict_set d item)).
Proof.
  induction d as [|y d IH]; simpl; intros Hnd.
  - apply NoDup_singleton.
  - apply NoDup_cons in Hnd as [Hy Hnd]. case_decide as Hp; simpl.
    + apply NoDup_cons. by rewrite <- Hp.
    + apply NoDup_cons. split; [|auto].
      intros Hin. apply list_elem_of_In, in_map_iff in Hin as (z & Hz & Hin).
      apply list_elem_of_In in Hin. apply dict_set_elem in Hin; [|done].
      destruct Hin as [->|[Hin _]]; [congruence|].
      apply Hy. rewrite <- Hz. apply list_elem_of_In, in_map, list_elem_of_In, Hin.
Qed.

Lemma dict_update_spec (other d : list config.Setting) (x : config.Setting) :
  NoDup (List.map config.param_of d) →
  NoDup (List.map config.param_of other) →
  NoDup (List.map config.param_of (config.dict_update d other)) ∧
  (x ∈ config.dict_update d other ↔
   x ∈ other ∨ (x ∈ d ∧ config.param_of x ∉ List.map config.param_of other)).
Proof.
  unfold config.dict_update. revert d.
  induction other as [|o other IH]; simpl; intros d Hd Ho.
  - split; [done|]. split; [intros; right; split; [done|by intros ?%elem_of_nil]|].
    intros [H|[H _]]; [by apply elem_of_nil in H|done].
  - apply NoDup_cons in Ho as [Hoo Ho].
    destruct (IH (config.dict_set d o)) as [Hnd Hiff]; [by apply dict_set_params|done|].
    split; [done|]. rewrite Hiff, dict_set_elem by done.
    cbn [List.map]. rewrite !elem_of_cons. split.
    + intros [Hx|[[->|[Hx Hne]] Hnot]]; auto.
      right. split; [done|]. intros [Heq|Hin]; auto.
    + intros [[->|Hx]|[Hx Hnot]]; auto.
      right. split.
      * right. split; [done|]. intros Heq. apply Hnot. by left.
      * intros Hin. apply Hnot. by right.
Qed.


Lemma py_dict_lookup (pairs : list (string * config.Value)) k v :
  NoDup (pairs.*1) → config.py_dict pairs !! k = Some v ↔ (k, v) ∈ pairs.
Proof.
  intros Hnd.
  assert (config.py_dict pairs = list_to_map (rev pairs)) as ->.
  { unfold config.py_dict, list_to_map. symmetry.
    apply (fold_left_rev_right (λ (p : string * config.Value) m, <[p.1:=p.2]> m)). }
  rewrite <- elem_of_list_to_map.
  - by rewrite !list_elem_of_In, <- in_rev.
  - by rewrite <- (Permutation_rev pairs).
Qed.

Lemma process_params_items (params : list config.Setting) items :
  config._process_params params = Ok items →
  items.*1 = List.map (λ item, config.Param.value (config.param_of item)) params ∧
  ∀ k v, (k, v) ∈ items ↔
         ∃ item, item ∈ params ∧ k = config.Param.value (config.param_of item) ∧
                 config.processors item = Ok v.
Proof.
  revert items. induction params as [|item params IH]; intros items; simpl.
  - intros [= <-]. split; [done|]. intros k v. split; [by intros ?%elem_of_nil|].
    by intros (? & ?%elem_of_nil & _).
  - destruct (config.processors item) as [v|e] eqn:Hv; [|discriminate]. simpl.
    destruct (config._process_params params) as [rest|e] eqn:Hrest; [|discriminate].
    simpl. intros [= <-]. destruct (IH rest eq_refl) as [Hkeys Hiff].
    split; [simpl; by f_equal|]. intros k v'. rewrite elem_of_cons, Hiff. split.
    + intros [[= -> ->]|(x & Hx & -> & Hxv)].
      * exists item. split; [left|done].
      * exists x. split; [by right|done].
    + intros (x & [->|Hx]%elem_of_cons & -> & Hxv).
      * left. congruence.
      * right. eauto.
Qed.


Lemma config_pmap (param_map : list config.Setting) (mc : string) (x : config.Setting) :
  config.is_dict param_map →
  NoDup (List.map config.param_of
           (config.dict_update [config.Set_mastercode mc] param_map)) ∧
  (x ∈ config.dict_update [config.Set_mastercode mc] param_map ↔
   x ∈ param_map ∨
   (x = config.Set_mastercode mc ∧
    config.Param.mastercode ∉ List.map config.param_of param_map)).
Proof.
  intros Hd.
  destruct (dict_update_spec param_map [config.Set_mastercode mc] x) as [Hnd Hiff];
    [apply NoDup_singleton|done|].
  split; [done|]. rewrite Hiff, list_elem_of_singleton.
  split; (intros [?|[-> ?]]; [by left|by right]).
Qed.

(** X16. What a successful [config] returns: the result maps the wire name
    of every parameter of [param_map] to its processed value, maps
    MASTERCODE to the processed [mastercode] argument when [param_map] does
    not set the mastercode itself, and holds nothing else. *)
Theorem config_entries (param_map : list config.Setting) (mc : string)
    (result : gmap string config.Value) :
  config.is_dict param_map →
  config.config param_map mc = Ok result →
  ∀ k v, result !! k = Some v ↔
    (∃ item, item ∈ param_map ∧ k = config.Param.value (config.param_of item) ∧
             config.processors item = Ok v) ∨
    (k = "MASTERCODE" ∧
     (config.Param.mastercode ∉ List.map config.param_of param_map) ∧
     config.processors (config.Set_mastercode mc) = Ok v).
Proof.
  intros Hd Hc k v. unfold config.config in Hc.
  destruct (config._process_params
              (config.dict_update [config.Set_mastercode mc] param_map))
    as [items|e] eqn:Hitems; [|discriminate].
  simpl in Hc. injection Hc as <-.
  destruct (process_params_items _ _ Hitems) as [Hkeys Hiff].
  rewrite py_dict_lookup, Hiff.
  - split.
    + intros (x & Hx & -> & Hv). apply (config_pmap param_map mc x Hd) in Hx.
      destruct Hx as [Hx|[-> Hno]]; [left; eauto|right; done].
    + intros [(x & Hx & -> & Hv)|(-> & Hno & Hv)].
      * exists x. split; [|done]. apply (config_pmap param_map mc x Hd). by left.
      * exists (config.Set_mastercode mc). split; [|done].
        apply (config_pmap param_map mc _ Hd). by right.
  - rewrite Hkeys.
    destruct (config_pmap param_map mc (config.Set_mastercode mc) Hd) as [Hnd _].
    rewrite <- (map_map config.param_of config.Param.value).
    assert (Inj eq eq config.Param.value) by (intros p q; apply Param_value_inj).
    by apply (NoDup_fmap_2 config.Param.value).
Qed.

Lemma config_entries_witness :
  ({[ "MASTERCODE" := config.VStr "BEEFBEEFBEEF";
      "TIMEZONE" := config.VInt 8;
      "APPSSID" := config.VStr "flashair" ]}
   : gmap string config.Value) !! "TIMEZONE" = Some (config.VInt 8) ↔
    (∃ item, item ∈ example_param_map ∧
             "TIMEZONE" = config.Param.value (config.param_of item) ∧
             config.processors item = Ok (config.VInt 8)) ∨
    ("TIMEZONE" = "MASTERCODE" ∧
     (config.Param.mastercode ∉ List.map config.param_of example_param_map) ∧
     config.processors (config.Set_mastercode config.default_mastercode)
     = Ok (config.VInt 8)).
Proof.
  apply (config_entries example_param_map config.default_mastercode).
  - unfold config.is_dict. simpl. repeat constructor; set_solver.
  - vm_compute. reflexivity.
Defined.

(** With the default mastercode the example map is sent as three entries. *)
Example config_example :
  config.config example_param_map config.default_mastercode
  = Ok {[ "MASTERCODE" := config.VStr "BEEFBEEFBEEF";
          "TIMEZONE" := config.VInt 8;
          "APPSSID" := config.VStr "flashair" ]}.
Proof. vm_compute. reflexivity. Qed.



Lemma dict_update_mastercode_overridden (other t : list config.Setting) (mc1 mc2 : string) :
  (∃ c, config.Set_mastercode c ∈ other) →
  fold_left config.dict_set other (config.Set_mastercode mc1 :: t)
  = fold_left config.dict_set other (config.Set_mastercode mc2 :: t).
Proof.
  revert t. induction other as [|o other IH]; intros t [c Hc].
  - by apply elem_of_nil in Hc.
  - cbn [fold_left config.dict_set]. simpl. case_decide as Hp; [done|].
    apply IH. exists c. apply elem_of_cons in Hc as [<-|Hc]; [done|done].
Qed.

(** X18. A mastercode set in [param_map] takes the place of the
    [mastercode] argument before anything is validated: the argument then
    plays no part in the result, so even an argument that [mastercode]
    would reject is ignored. *)
Theorem config_param_map_mastercode_wins (param_map : list config.Setting)
    (c mc1 mc2 : string) :
  config.Set_mastercode c ∈ param_map →
  config.config param_map mc1 = config.config param_map mc2.
Proof.
  intros Hc. unfold config.config, config.dict_update.
  rewrite (dict_update_mastercode_overridden param_map [] mc1 mc2); [done|eauto].
Qed.

Lemma config_param_map_mastercode_wins_witness :
  config.config [config.Set_mastercode "0123456789ab"] "not a mastercode"
  = config.config [config.Set_mastercode "0123456789ab"] config.default_mastercode.
Proof.
  apply (config_param_map_mastercode_wins [config.Set_mastercode "0123456789ab"]
           "0123456789ab" "not a mastercode" config.default_mastercode).
  left.
Defined.
